(** * json2go: synthesis of Go type declarations from a tree of inferred nodes

    A shallow embedding of [ast.go] (package [json2go]) together with the
    properties of its type-expression synthesizer: pointer policy, array
    wrapping, map and timestamp special cases, struct field layout, struct
    tags and the panic on unknown node kinds.

    Conventions of the embedding:
    - a Go [string] is a byte sequence, here a [string] of 8-bit [ascii];
    - [*node] pointers are read-only and assumed non-nil, and the tree is
      finite and acyclic, so a node is a value of an inductive type;
    - a Go [panic] is the [Panic] outcome of the [result] monad; it is
      propagated through every caller, as unwinding does;
    - functions of Go's standard library that the file calls but does not
      define ([sort.Slice], [strconv.Quote] behind [fmt.Sprintf "%#v"],
      [printer.Fprint], [strings.TrimSpace]) are variables of the section,
      constrained only by the part of their documented contract a proof
      needs. *)

From Stdlib Require Import Bool List String Ascii Arith NArith Lia.
From Stdlib Require Import Permutation Sorted RelationClasses.
Import ListNotations.
Open Scope list_scope.
Open Scope string_scope.

Set Implicit Arguments.

(** The double quote and the backslash. *)
Definition dquote : ascii := ascii_of_nat 34.
Definition backslash : ascii := ascii_of_nat 92.

(** ** Outcomes: a value or a panic *)

Inductive result (A : Type) : Type :=
| Ok (a : A)
| Panic (v : string).

Arguments Ok {A} a.
Arguments Panic {A} v.

Definition bind {A B : Type} (r : result A) (k : A -> result B) : result B :=
  match r with
  | Ok a => k a
  | Panic v => Panic v
  end.

Notation "x <- r ;; k" := (bind r (fun x => k))
  (at level 61, r at next level, right associativity).
Notation "' p <- r ;; k" := (bind r (fun x => let 'p := x in k))
  (at level 61, p pattern, r at next level, right associativity).

(** [for _, x := range l { out = append(out, f x) }] where [f] may panic. *)
Fixpoint appendEach {A B : Type} (f : A -> result B) (l : list A)
  : result (list B) :=
  match l with
  | [] => Ok []
  | x :: l' => y <- f x ;; ys <- appendEach f l' ;; Ok (y :: ys)
  end.

(** ** The parts of [go/token] and [go/ast] that the file builds *)

Module token.
Definition Pos := nat.
Inductive Token := TYPE.
End token.

Module ast.

Record Ident := { Name : string }.

Definition NewIdent (name : string) : Ident := {| Name := name |}.

Record BasicLit := { Value : string }.

Inductive Expr : Type :=
| IdentExpr (x : Ident)
| StarExpr (X : Expr)
| ArrayType (Elt : Expr)
| MapType (Key Value : Expr)
| InterfaceType (Methods : FieldList)
| StructType (Fields : FieldList)
with FieldList : Type :=
| Build_FieldList (Opening : token.Pos) (List_ : list Field)
                  (Closing : token.Pos)
with Field : Type :=
| Build_Field (Names : list Ident) (Type_ : Expr) (Tag : BasicLit).

Definition List_ (fl : FieldList) : list Field :=
  let 'Build_FieldList _ l _ := fl in l.
Definition Names (f : Field) : list Ident :=
  let 'Build_Field ns _ _ := f in ns.
Definition Type_ (f : Field) : Expr :=
  let 'Build_Field _ ty _ := f in ty.
Definition Tag (f : Field) : BasicLit :=
  let 'Build_Field _ _ tg := f in tg.

Record TypeSpec := { SpecName : Ident; SpecType : Expr }.

Record GenDecl := { Tok : token.Token; Specs : list TypeSpec }.

Definition Decl := GenDecl.

Record File := { FileName : Ident; Decls : list Decl }.

End ast.

(** [ast.NewIdent name] used as an expression. *)
Definition goIdent (name : string) : ast.Expr := ast.IdentExpr (ast.NewIdent name).

(** [if b { e = &ast.StarExpr{X: e} }]. *)
Definition pointerIf (b : bool) (e : ast.Expr) : ast.Expr :=
  if b then ast.StarExpr e else e.

(** The literal of a struct tag that names the JSON key [body]: between
    backquotes, [json:] and, between double quotes, [body] followed by
    [,omitempty] when [omitempty] is set. *)
Definition jsonTagLiteral (body : string) (omitempty : bool) : string :=
  "`json:" ++
  String dquote
    (body ++ (if omitempty then ",omitempty" else EmptyString) ++ String dquote "`").

(** ** The node tree *)

(** The dynamic types the [switch n.t.(type)] of [astTypeFromNode] names.
    [nodeType] is an interface: [nodeOtherType v] stands for any other
    value stored in [n.t], [v] being its rendering under the verb [%v]. *)
Inductive nodeType : Type :=
| nodeBoolType
| nodeIntType
| nodeFloatType
| nodeStringType
| nodeTimeType
| nodeObjectType
| nodeExtractedType
| nodeInterfaceType
| nodeInitType
| nodeMapType
| nodeOtherType (v : string).

(** Modelled from the spec: the declaration of [node] is not part of
    [ast.go]; the fields are those the file reads, with the types of the
    data model ([arrayLevel] a non-negative integer, [children] an ordered
    collection). *)
#[warnings="-register-all"]
Inductive node : Type := Build_node {
  root : bool;
  nullable : bool;
  required : bool;
  key : string;
  name : string;
  t : nodeType;
  externalTypeID : string;
  arrayLevel : nat;
  arrayWithNulls : bool;
  children : list node
}.

(** Modelled from the spec: the declaration of [options] is not part of
    [ast.go]; these are the two options the file reads. *)
Record options := {
  stringPointersWhenKeyMissing : bool;
  timeAsStr : bool
}.

(** Depth of a tree, the recursion budget of the synthesizer. *)
Fixpoint height (n : node) : nat :=
  S (list_max (map height (children n))).

(** The local type of [astStructTypeFromNode]. *)
Record nodeWithName := { sortedName : string; sortedNode : node }.

(** The element appended to [sortedChildren] for one child. *)
Definition withName (child : node) : nodeWithName :=
  {| sortedName := name child; sortedNode := child |}.

(** The [less] closure handed to [sort.Slice]:
    [sortedChildren[i].name < sortedChildren[j].name], the byte-wise
    lexicographic order of Go strings. *)
Definition nameLess (a b : nodeWithName) : bool :=
  (sortedName a <? sortedName b)%string.

(** [sort.SliceIsSorted]: no element is less than its predecessor. *)
Fixpoint SliceIsSorted {A : Type} (x : list A) (less : A -> A -> bool) : bool :=
  match x with
  | [] => true
  | a :: x' =>
      match x' with
      | [] => true
      | b :: _ => negb (less b a) && SliceIsSorted x' less
      end
  end.

(** ** Strings: trimming and the characters [strconv.Quote] leaves alone *)

(** [strings.TrimPrefix]: [s] without the leading [prefix], or [s] itself
    when it does not start with [prefix]. *)
Definition TrimPrefix (s prefix : string) : string :=
  if String.prefix prefix s
  then String.substring (String.length prefix)
                        (String.length s - String.length prefix) s
  else s.

(** [strings.TrimLeftFunc] and [strings.TrimRightFunc] for a predicate on
    bytes. *)
Fixpoint TrimLeftFunc (s : string) (f : ascii -> bool) : string :=
  match s with
  | String a s' => if f a then TrimLeftFunc s' f else s
  | EmptyString => EmptyString
  end.

Fixpoint TrimRightFunc (s : string) (f : ascii -> bool) : string :=
  match s with
  | String a s' =>
      match TrimRightFunc s' f with
      | EmptyString => if f a then EmptyString else String a EmptyString
      | r => String a r
      end
  | EmptyString => EmptyString
  end.

(** [strings.Trim s cutset] for a cutset of one ASCII character. *)
Definition TrimByte (s : string) (c : ascii) : string :=
  TrimRightFunc (TrimLeftFunc s (fun a => Ascii.eqb a c)) (fun a => Ascii.eqb a c).

(** Printable ASCII other than the double quote and the backslash: the
    bytes [strconv.Quote] copies unchanged. *)
Definition plainByte (c : ascii) : bool :=
  let n := nat_of_ascii c in
  (32 <=? n)%nat && (n <=? 126)%nat && negb (Ascii.eqb c dquote)
  && negb (Ascii.eqb c backslash).

Fixpoint plainKey (s : string) : bool :=
  match s with
  | EmptyString => true
  | String c s' => plainByte c && plainKey s'
  end.

(** ** Shapes of trees *)

(** The kinds [astTypeFromNode] has a case for. *)
Definition recognized (ty : nodeType) : bool :=
  match ty with
  | nodeOtherType _ => false
  | _ => true
  end.

(** Every node of the tree is of a recognized kind. *)
Fixpoint allRecognized (n : node) : bool :=
  recognized (t n) && forallb allRecognized (children n).

(** [reached n m]: synthesizing [n] calls the synthesizer on [m], that is
    [m] is [n], or is reached from a child of the object [n] or from the
    first child of the map [n]. *)
Inductive reached : node -> node -> Prop :=
| reached_self : forall n, reached n n
| reached_field : forall n child m,
    t n = nodeObjectType -> In child (children n) -> reached child m ->
    reached n m
| reached_value : forall n child rest m,
    t n = nodeMapType -> children n = child :: rest -> reached child m ->
    reached n m.

Fixpoint distinct (l : list string) : bool :=
  match l with
  | [] => true
  | x :: l' => negb (existsb (String.eqb x) l') && distinct l'
  end.



(** Ascending order of strings, read off Go's [<]: the second is not less
    than the first. *)
Definition notAfter (s1 s2 : string) : Prop := (s2 <? s1)%string = false.

(** Nodes in ascending order of their names. *)
Definition ascendingNames (l : list node) : Prop :=
  StronglySorted (fun a b => notAfter (name a) (name b)) l.

(** Names in ascending order, as [nameLess] compares them. *)
Definition nameLe (a b : nodeWithName) : Prop := nameLess b a = false.

(** ** Shapes of synthesized types *)

(** The number of array levels at the top of a type. *)
Fixpoint arrayDepth (e : ast.Expr) : nat :=
  match e with
  | ast.ArrayType elt => S (arrayDepth elt)
  | _ => 0
  end.

(** What a pointer may point to: a named type or a struct. *)
Definition pointee (e : ast.Expr) : bool :=
  match e with
  | ast.IdentExpr _ | ast.StructType _ => true
  | _ => false
  end.

Definition isStringIdent (e : ast.Expr) : bool :=
  match e with
  | ast.IdentExpr x => (ast.Name x =? "string")%string
  | _ => false
  end.

(** The types the synthesizer builds: array levels over an optional
    pointer over a name, the empty interface with the positions 1 and 2,
    a map keyed by [string], or a struct whose fields have one name each;
    a pointer points to a name or a struct only. *)
Fixpoint wellShaped (e : ast.Expr) : bool :=
  match e with
  | ast.IdentExpr _ => true
  | ast.StarExpr x => pointee x && wellShaped x
  | ast.ArrayType elt => wellShaped elt
  | ast.MapType k v => isStringIdent k && wellShaped v
  | ast.InterfaceType (ast.Build_FieldList o l c) =>
      (o =? 1)%nat && (c =? 2)%nat && match l with [] => true | _ => false end
  | ast.StructType (ast.Build_FieldList o l c) =>
      (o =? 0)%nat && (c =? 0)%nat &&
      forallb (fun f => (List.length (ast.Names f) =? 1)%nat &&
                        wellShaped (ast.Type_ f)) l
  end.

(** Some node of the tree satisfies [p]. *)
Fixpoint anyNode (p : node -> bool) (n : node) : bool :=
  p n || existsb (anyNode p) (children n).

Definition isStringKind (n : node) : bool :=
  match t n with nodeStringType => true | _ => false end.

Definition isTimeKind (n : node) : bool :=
  match t n with nodeTimeType => true | _ => false end.

(** The kinds whose case of the [switch] reads the children. *)
Definition readsChildren (ty : nodeType) : bool :=
  match ty with
  | nodeObjectType | nodeMapType => true
  | _ => false
  end.

(** A string without a comma. *)
Fixpoint commaFree (s : string) : bool :=
  match s with
  | EmptyString => true
  | String c s' => negb (Ascii.eqb c (ascii_of_nat 44)) && commaFree s'
  end.

(** Names in strictly ascending order. *)
Definition strictlyAscending (l : list string) : Prop :=
  StronglySorted (fun a b => (a <? b)%string = true) l.

(** ** Go's library functions on small inputs

    Concrete functions that agree with Go's library where stated; they
    instantiate the variables of the synthesizer on concrete trees. *)

(** [insertionSortLessFunc] of package [sort], which [sort.Slice] runs on
    slices of fewer than 12 elements: each element moves left past every
    predecessor it is less than.  [insertLess] keeps the sorted prefix
    reversed, its last element first. *)
Fixpoint insertLess {A : Type} (less : A -> A -> bool) (e : A)
  (revPrefix : list A) : list A :=
  match revPrefix with
  | [] => [e]
  | p :: revPrefix' =>
      if less e p then p :: insertLess less e revPrefix' else e :: revPrefix
  end.

Definition insertionSort {A : Type} (x : list A) (less : A -> A -> bool)
  : list A :=
  rev (fold_left (fun revPrefix e => insertLess less e revPrefix) x []).

Definition hexDigit (n : nat) : ascii :=
  nth n (list_ascii_of_string "0123456789abcdef") (ascii_of_nat 48).

(** What [strconv.Quote] writes for one byte of an ASCII string. *)
Definition quoteByte (c : ascii) : string :=
  let n := nat_of_ascii c in
  if Ascii.eqb c dquote then String backslash (String dquote EmptyString)
  else if Ascii.eqb c backslash then String backslash (String backslash EmptyString)
  else if (32 <=? n)%nat && (n <=? 126)%nat then String c EmptyString
  else
    String backslash
      match n with
      | 7 => "a" | 8 => "b" | 12 => "f" | 10 => "n"
      | 13 => "r" | 9 => "t" | 11 => "v"
      | _ => String (ascii_of_nat 120)
               (String (hexDigit (n / 16)) (String (hexDigit (n mod 16)) EmptyString))
      end.

Fixpoint quoteBody (s : string) : string :=
  match s with
  | EmptyString => EmptyString
  | String c s' => quoteByte c ++ quoteBody s'
  end.

(** [strconv.Quote] on strings of ASCII bytes. *)
Definition quoteASCII (s : string) : string :=
  String dquote (quoteBody s ++ String dquote EmptyString).

(** [strings.TrimSpace] on strings of ASCII bytes. *)
Definition isSpaceASCII (c : ascii) : bool :=
  let n := nat_of_ascii c in
  ((9 <=? n)%nat && (n <=? 13)%nat) || (n =? 32)%nat.

Definition trimSpaceASCII (s : string) : string :=
  TrimRightFunc (TrimLeftFunc s isSpaceASCII) isSpaceASCII.

(** A one-line rendering of a file in Go syntax, standing for the printer
    where a concrete one is needed; the layout is not that of [gofmt]. *)
Fixpoint printExpr (e : ast.Expr) : string :=
  match e with
  | ast.IdentExpr x => ast.Name x
  | ast.StarExpr x => "*" ++ printExpr x
  | ast.ArrayType elt => "[]" ++ printExpr elt
  | ast.MapType k v => "map[" ++ printExpr k ++ "]" ++ printExpr v
  | ast.InterfaceType _ => "interface{}"
  | ast.StructType (ast.Build_FieldList _ l _) =>
      "struct {" ++
      (fix fields (l : list ast.Field) : string :=
         match l with
         | [] => EmptyString
         | ast.Build_Field ns ty tg :: l' =>
             " " ++ String.concat ", " (map ast.Name ns) ++ " " ++
             printExpr ty ++ " " ++ ast.Value tg ++ ";" ++ fields l'
         end) l ++
      " }"
  end.

Definition newline : string := String (ascii_of_nat 10) EmptyString.

Definition printOneLine (mode : N) (tabwidth : nat) (file : ast.File) : string :=
  "package " ++ ast.Name (ast.FileName file) ++ newline ++
  String.concat EmptyString
    (map (fun d : ast.Decl =>
            String.concat EmptyString
              (map (fun s => "type " ++ ast.Name (ast.SpecName s) ++ " " ++
                             printExpr (ast.SpecType s) ++ newline)
                   (ast.Specs d)))
         (ast.Decls file)).

(** ** Sample trees *)

(** A non-root leaf whose name is its key. *)
Definition leafNode (ty : nodeType) (k : string) (rq nu : bool) : node :=
  Build_node false nu rq k k ty EmptyString 0 false [].

Definition sampleOpts : options :=
  {| stringPointersWhenKeyMissing := true; timeAsStr := false |}.

Definition nameField : node := leafNode nodeStringType "name" true false.
Definition ageField : node := leafNode nodeIntType "age" false false.

Definition objectNode (nm : string) (cs : list node) : node :=
  Build_node true false true EmptyString nm nodeObjectType EmptyString 0 false cs.

Definition person : node := objectNode "Person" [nameField; ageField].




(** A node of a kind the [switch] has no case for, below an object. *)
Definition strayField : node := leafNode (nodeOtherType "stray") "s" true false.
Definition withStray : node := objectNode "S" [nameField; strayField].

(** A non-root timestamp that is not required. *)
Definition timeField : node := leafNode nodeTimeType "at" false false.
Definition rootTime : node :=
  Build_node true false true EmptyString "Stamp" nodeTimeType EmptyString 0 false [].

(** An array of strings whose elements may be null. *)
Definition stringsWithNulls : node :=
  Build_node false false true "tags" "Tags" nodeStringType EmptyString 1 true [].

(** The struct and the declaration expected for [person]. *)
Definition personStruct : ast.Expr :=
  ast.StructType
    (ast.Build_FieldList 0
       [ ast.Build_Field [ast.NewIdent "age"] (ast.StarExpr (goIdent "int64"))
           {| ast.Value := jsonTagLiteral "age" true |};
         ast.Build_Field [ast.NewIdent "name"] (goIdent "string")
           {| ast.Value := jsonTagLiteral "name" false |} ]
       0).

Definition personDecl : ast.Decl :=
  {| ast.Tok := token.TYPE;
     ast.Specs := [ {| ast.SpecName := ast.NewIdent "Person";
                       ast.SpecType := personStruct |} ] |}.


(** [person] as the one-line printer shows it. *)
Definition personText : string :=
  "type Person struct { age *int64 " ++ jsonTagLiteral "age" true ++
  "; name string " ++ jsonTagLiteral "name" false ++ "; }".

(** Options with both flags off. *)
Definition plainOpts : options :=
  {| stringPointersWhenKeyMissing := false; timeAsStr := false |}.

(** More sample trees: a nullable, not-required interface in two array
    levels; a not-required reference to an external type; a not-required
    nested object; an object without children; a not-required string. *)
Definition anyField : node :=
  Build_node false true false "any" "Any" nodeInterfaceType EmptyString 2 true [].
Definition extField : node :=
  Build_node false false false "ext" "Ext" nodeExtractedType "pkg.Type" 0 false [].
Definition ownerField : node :=
  Build_node false false false "owner" "Owner" nodeObjectType EmptyString 0 false
    [nameField; ageField].
Definition emptyObject : node := objectNode "Empty" [].
Definition nickField : node := leafNode nodeStringType "nick" false false.

(** Options with [timeAsStr] set, and options that differ from
    [sampleOpts] on both flags. *)
Definition stringTimeOpts : options :=
  {| stringPointersWhenKeyMissing := true; timeAsStr := true |}.
Definition otherOpts : options :=
  {| stringPointersWhenKeyMissing := false; timeAsStr := true |}.

(** ** Printer settings *)

Module printer.
(** The [Mode] bits of [go/printer]. *)
Definition RawFormat : N := N.shiftl 1 0.
Definition TabIndent : N := N.shiftl 1 1.
Definition UseSpaces : N := N.shiftl 1 2.
End printer.

Definition tabWidth : nat := 8.
Definition printerNormalizeNumbers : N := N.shiftl 1 30.
Definition printerMode : N :=
  N.lor (N.lor printer.UseSpaces printer.TabIndent) printerNormalizeNumbers.

(** ** The synthesizer *)

Section Synthesizer.

(** [sort.Slice x less]. *)
Variable sort_Slice :
  list nodeWithName -> (nodeWithName -> nodeWithName -> bool) ->
  list nodeWithName.

(** [fmt.Sprintf "%#v" key] for a string [key]: its Go-syntax
    representation, which is [strconv.Quote key]. *)
Variable strconv_Quote : string -> string.

(** [printer.Config{Mode, Tabwidth}.Fprint] into a fresh buffer, and
    [strings.TrimSpace]. *)
Variable printer_Fprint : N -> nat -> ast.File -> string.
Variable strings_TrimSpace : string -> string.

Definition newEmptyInterfaceExpr : ast.Expr :=
  ast.InterfaceType (ast.Build_FieldList 1 [] 2).

Definition astTypeShouldBeAPointer
  (n : node) (notRequiredAsPointer allowPointer : bool) : bool :=
  if negb allowPointer then false
  else if negb (root n) && (arrayLevel n =? 0)%nat then
    if nullable n || (negb (required n) && notRequiredAsPointer)
    then true else false
  else if (0 <? arrayLevel n)%nat then
    if arrayWithNulls n then true else false
  else false.

Definition astJSONTag (key : string) (omitempty : bool) : ast.BasicLit :=
  let tag := strconv_Quote key in
  let tag := TrimByte tag dquote in
  let tag :=
    if omitempty
    then "`json:" ++ String dquote (tag ++ ",omitempty" ++ String dquote "`")
    else "`json:" ++ String dquote (tag ++ String dquote "`") in
  {| ast.Value := tag |}.

Definition astTypeFromExtractedNode (n : node) : ast.Expr :=
  let extName := externalTypeID n in
  let extName := if (extName =? EmptyString)%string then name n else extName in
  goIdent extName.

Definition astTypeFromTimeNode (n : node) (opts : options) : ast.Expr :=
  if timeAsStr opts then goIdent "string"
  else if root n then goIdent "= time.Time"
  else goIdent "time.Time".

(** The three functions below call [astTypeFromNode]; [rec] stands for
    that recursive call. *)
Section Body.

Variable rec : node -> options -> result ast.Expr.

Definition astTypeFromMapNode (n : node) (opts : options)
  : result ast.Expr :=
  ve <- match children n with
        | [] => Ok newEmptyInterfaceExpr
        | child0 :: _ => rec child0 opts
        end ;;
  Ok (ast.MapType (goIdent "string") ve).

(** The field appended for one sorted child. *)
Definition fieldFromChild (opts : options) (child : nodeWithName)
  : result ast.Field :=
  ty <- rec (sortedNode child) opts ;;
  Ok (ast.Build_Field
        [ast.NewIdent (sortedName child)]
        ty
        (astJSONTag (key (sortedNode child))
                    (negb (required (sortedNode child))))).

Definition astStructTypeFromNode (n : node) (opts : options)
  : result ast.Expr :=
  let sortedChildren := map withName (children n) in
  let sortedChildren := sort_Slice sortedChildren nameLess in
  fields <- appendEach (fieldFromChild opts) sortedChildren ;;
  Ok (ast.StructType (ast.Build_FieldList 0 fields 0)).

(** The [switch n.t.(type)]: the base type together with the values
    of [notRequiredAsPointer] and [allowPointer] after it. *)
Definition typeSwitch (n : node) (opts : options)
  : result (ast.Expr * bool * bool) :=
  match t n with
  | nodeBoolType => Ok (goIdent "bool", true, true)
  | nodeIntType => Ok (goIdent "int64", true, true)
  | nodeFloatType => Ok (goIdent "float64", true, true)
  | nodeStringType =>
      Ok (goIdent "string",
          stringPointersWhenKeyMissing opts, true)
  | nodeTimeType =>
      Ok (astTypeFromTimeNode n opts,
          if timeAsStr opts then stringPointersWhenKeyMissing opts else true,
          true)
  | nodeObjectType =>
      resultType <- astStructTypeFromNode n opts ;;
      Ok (resultType, true, true)
  | nodeExtractedType => Ok (astTypeFromExtractedNode n, true, true)
  | nodeInterfaceType | nodeInitType =>
      Ok (newEmptyInterfaceExpr, true, false)
  | nodeMapType =>
      resultType <- astTypeFromMapNode n opts ;;
      Ok (resultType, true, false)
  | nodeOtherType v => Panic ("unknown type: " ++ v)
  end.

Definition astTypeFromNode_body (n : node) (opts : options)
  : result ast.Expr :=
  '(resultType, notRequiredAsPointer, allowPointer) <- typeSwitch n opts ;;
  let resultType :=
    if astTypeShouldBeAPointer n notRequiredAsPointer allowPointer
    then ast.StarExpr resultType
    else resultType in
  Ok (Nat.iter (arrayLevel n) ast.ArrayType resultType).

End Body.

(** The recursion of [astTypeFromNode], unrolled [fuel] times. *)
Fixpoint astTypeFromNode_fuel (fuel : nat) (n : node) (opts : options)
  : result ast.Expr :=
  match fuel with
  | O => Panic "stack overflow"
  | S fuel' => astTypeFromNode_body (astTypeFromNode_fuel fuel') n opts
  end.

(** A finite tree of height [h] needs [h] nested calls. *)
Definition astTypeFromNode (n : node) (opts : options) : result ast.Expr :=
  astTypeFromNode_fuel (height n) n opts.

Definition astMakeDecls (rootNodes : list node) (opts : options)
  : result (list ast.Decl) :=
  appendEach
    (fun node =>
       ty <- astTypeFromNode node opts ;;
       Ok {| ast.Tok := token.TYPE;
             ast.Specs := [ {| ast.SpecName := ast.NewIdent (name node);
                               ast.SpecType := ty |} ] |})
    rootNodes.

Definition astPrintDecls (decls : list ast.Decl) : string :=
  let file := {| ast.FileName := ast.NewIdent "main"; ast.Decls := decls |} in
  let repr := printer_Fprint printerMode tabWidth file in
  let repr := TrimPrefix repr "package main" in
  let repr := strings_TrimSpace repr in
  repr.

(** ** Outcomes and loops *)

Lemma appendEach_ext (A B : Type) (f g : A -> result B) (l : list A) :
  (forall x, In x l -> f x = g x) -> appendEach f l = appendEach g l.
Proof using Type.
  induction l as [|x l IH]; intros Hfg; simpl; [reflexivity|].
  rewrite (Hfg x (or_introl eq_refl)).
  rewrite IH; [reflexivity|].
  intros y Hy. apply Hfg. now right.
Qed.

Lemma appendEach_map (A A' B : Type) (f : A -> result B) (g : A' -> result B)
  (l : list A) (l' : list A') :
  map f l = map g l' -> appendEach f l = appendEach g l'.
Proof using Type.
  revert l'. induction l as [|x l IH]; intros [|x' l'] Hm; simpl in *;
    try discriminate; [reflexivity|].
  injection Hm as Hx Hl. rewrite Hx, (IH _ Hl). reflexivity.
Qed.

Lemma appendEach_Ok (A B : Type) (f : A -> result B) (l : list A) (ys : list B) :
  appendEach f l = Ok ys -> Forall2 (fun x y => f x = Ok y) l ys.
Proof using Type.
  revert ys. induction l as [|x l IH]; intros ys Hl; simpl in Hl.
  - injection Hl as <-. constructor.
  - destruct (f x) as [y|v] eqn:Hx; simpl in Hl; [|discriminate].
    destruct (appendEach f l) as [ys'|v] eqn:Hl'; simpl in Hl; [|discriminate].
    injection Hl as <-. constructor; [assumption|]. now apply IH.
Qed.

Lemma appendEach_total (A B : Type) (f : A -> result B) (l : list A) :
  Forall (fun x => exists y, f x = Ok y) l -> exists ys, appendEach f l = Ok ys.
Proof using Type.
  induction 1 as [|x l [y Hy] _ [ys Hys]]; simpl.
  - now exists [].
  - rewrite Hy, Hys. simpl. now exists (y :: ys).
Qed.

Lemma appendEach_Panic (A B : Type) (f : A -> result B) (l : list A) (x : A)
  (v : string) :
  In x l -> f x = Panic v -> exists v', appendEach f l = Panic v'.
Proof using Type.
  induction l as [|a l IH]; intros Hin Hx; [contradiction|].
  simpl. destruct (f a) as [y|va] eqn:Ha; simpl; [|now exists va].
  destruct Hin as [->|Hin]; [congruence|].
  destruct (IH Hin Hx) as [v' ->]. simpl. now exists v'.
Qed.

(** ** The order of names *)

Lemma compare_Lt_trans (s1 s2 s3 : string) :
  (s1 ?= s2)%string = Lt -> (s2 ?= s3)%string = Lt -> (s1 ?= s3)%string = Lt.
Proof using Type.
  revert s2 s3.
  induction s1 as [|a s1 IH]; intros [|b s2] [|c s3]; simpl; try congruence.
  unfold Ascii.compare.
  destruct (N.compare_spec (N_of_ascii a) (N_of_ascii b)) as [Hab|Hab|Hab];
    try discriminate;
    destruct (N.compare_spec (N_of_ascii b) (N_of_ascii c)) as [Hbc|Hbc|Hbc];
    try discriminate; intros H1 H2.
  - rewrite Hab, Hbc, N.compare_refl. eauto.
  - rewrite Hab. now apply N.compare_lt_iff in Hbc as ->.
  - rewrite <- Hbc. now apply N.compare_lt_iff in Hab as ->.
  - assert (Hac : (N_of_ascii a < N_of_ascii c)%N) by (eapply N.lt_trans; eauto).
    now apply N.compare_lt_iff in Hac as ->.
Qed.

Lemma notAfter_leb (s1 s2 : string) : notAfter s1 s2 <-> (s1 <=? s2)%string = true.
Proof using Type.
  unfold notAfter, String.ltb, String.leb.
  rewrite (String.compare_antisym s2 s1).
  destruct (s1 ?= s2)%string; simpl; split; intros H;
    first [reflexivity | discriminate H].
Qed.

Lemma notAfter_antisym (s1 s2 : string) : notAfter s1 s2 -> notAfter s2 s1 -> s1 = s2.
Proof using Type.
  rewrite !notAfter_leb. apply String.leb_antisym.
Qed.

Lemma notAfter_trans (s1 s2 s3 : string) :
  notAfter s1 s2 -> notAfter s2 s3 -> notAfter s1 s3.
Proof using Type.
  rewrite !notAfter_leb. unfold String.leb. intros H12 H23.
  destruct (s1 ?= s2)%string eqn:E12; try discriminate;
    destruct (s2 ?= s3)%string eqn:E23; try discriminate.
  - apply String.compare_eq_iff in E12 as ->. now rewrite E23.
  - apply String.compare_eq_iff in E12 as ->. now rewrite E23.
  - apply String.compare_eq_iff in E23 as <-. now rewrite E12.
  - now rewrite (compare_Lt_trans _ _ _ E12 E23).
Qed.

Lemma distinct_NoDup (l : list string) : distinct l = true -> NoDup l.
Proof using Type.
  induction l as [|x l IH]; simpl; intros H; constructor;
    apply andb_prop in H as [Hx Hl]; [|now apply IH].
  intros Hin. apply negb_true_iff in Hx.
  assert (existsb (String.eqb x) l = true); [|congruence].
  apply existsb_exists. exists x. split; [assumption|apply String.eqb_refl].
Qed.

(** A list whose keys are pairwise distinct has one ascending arrangement. *)
Lemma ascending_unique (A : Type) (k : A -> string) (l1 l2 : list A) :
  Permutation l1 l2 -> NoDup (map k l1) ->
  StronglySorted (fun a b => notAfter (k a) (k b)) l1 ->
  StronglySorted (fun a b => notAfter (k a) (k b)) l2 ->
  l1 = l2.
Proof using Type.
  revert l2. induction l1 as [|a l1 IH]; intros l2 Hp Hnd Hs1 Hs2.
  - now apply Permutation_nil in Hp.
  - destruct l2 as [|b l2];
      [apply Permutation_sym, Permutation_nil in Hp; discriminate|].
    inversion Hs1 as [|? ? Hs1' Ha]; subst.
    inversion Hs2 as [|? ? Hs2' Hb]; subst.
    inversion Hnd as [|? ? Hnotin Hnd']; subst.
    assert (Hab : a = b).
    { assert (Hina : In a (b :: l2))
        by (eapply Permutation_in; [exact Hp|now left]).
      assert (Hinb : In b (a :: l1))
        by (eapply Permutation_in; [apply Permutation_sym; exact Hp|now left]).
      destruct Hina as [->|Hina]; [reflexivity|].
      destruct Hinb as [->|Hinb]; [reflexivity|].
      exfalso. apply Hnotin.
      rewrite Forall_forall in Ha, Hb.
      rewrite (notAfter_antisym (Ha _ Hinb) (Hb _ Hina)).
      now apply in_map. }
    subst b. f_equal. apply IH; try assumption.
    eapply Permutation_cons_inv; exact Hp.
Qed.

Lemma SliceIsSorted_ascending (x : list nodeWithName) :
  SliceIsSorted x nameLess = true -> StronglySorted nameLe x.
Proof using Type.
  induction x as [|a x IH]; intros H; [constructor|].
  assert (Hx : SliceIsSorted x nameLess = true /\
               match x with [] => True | b :: _ => nameLe a b end).
  { simpl in H. destruct x as [|b x']; [now split|].
    apply andb_prop in H as [Hab Hx]. split; [exact Hx|].
    now apply negb_true_iff in Hab. }
  destruct Hx as [Hx Hhd]. specialize (IH Hx).
  constructor; [assumption|].
  destruct x as [|b x']; [constructor|].
  inversion IH as [|? ? _ Hb]; subst.
  constructor; [assumption|].
  eapply Forall_impl; [|exact Hb].
  intros c Hbc. unfold nameLe, nameLess in *.
  exact (notAfter_trans Hhd Hbc).
Qed.

Lemma height_child (n child : node) :
  In child (children n) -> height child < height n.
Proof using Type.
  destruct n as [r nu rq k nm ty x al awn cs]; simpl. intros Hin.
  assert (H : height child <= list_max (map height cs)); [|lia].
  induction cs as [|c cs IH]; [contradiction|].
  simpl. destruct Hin as [->|Hin]; [lia|]. specialize (IH Hin). lia.
Qed.

(** ** The recursion of the synthesizer *)

(** A call at a node unrolls the body once, whatever the kind. *)
Lemma astTypeFromNode_step (n : node) (opts : options) :
  astTypeFromNode n opts =
  astTypeFromNode_body
    (astTypeFromNode_fuel (list_max (map height (children n)))) n opts.
Proof using Type. destruct n; reflexivity. Qed.

(** The contract of [sort.Slice]: it permutes the slice, and leaves it
    sorted for the order on names. *)
Hypothesis sort_Slice_perm :
  forall x less, Permutation (sort_Slice x less) x.
Hypothesis sort_Slice_sorted :
  forall x, SliceIsSorted (sort_Slice x nameLess) nameLess = true.

(** [strconv.Quote] puts a string of printable ASCII characters other
    than the double quote and the backslash between double quotes. *)
Hypothesis strconv_Quote_plain :
  forall s, plainKey s = true ->
            strconv_Quote s = String dquote (s ++ String dquote EmptyString).

Lemma sortedChildren_In (n : node) (c : nodeWithName) :
  In c (sort_Slice (map withName (children n)) nameLess) ->
  In (sortedNode c) (children n) /\ c = withName (sortedNode c).
Proof using sort_Slice_perm.
  intros Hin.
  apply (Permutation_in _ (sort_Slice_perm _ _)) in Hin.
  apply in_map_iff in Hin as [child [<- Hchild]]. now split.
Qed.

Lemma astStructTypeFromNode_ext (rec1 rec2 : node -> options -> result ast.Expr)
  (n : node) (opts : options) :
  (forall c, In c (children n) -> rec1 c opts = rec2 c opts) ->
  astStructTypeFromNode rec1 n opts = astStructTypeFromNode rec2 n opts.
Proof using sort_Slice_perm.
  intros Hrec. unfold astStructTypeFromNode.
  rewrite (appendEach_ext (fieldFromChild rec1 opts) (fieldFromChild rec2 opts));
    [reflexivity|].
  intros c Hc. apply sortedChildren_In in Hc as [Hc _].
  unfold fieldFromChild. now rewrite (Hrec _ Hc).
Qed.

Lemma astTypeFromNode_body_ext (rec1 rec2 : node -> options -> result ast.Expr)
  (n : node) (opts : options) :
  (forall c, In c (children n) -> rec1 c opts = rec2 c opts) ->
  astTypeFromNode_body rec1 n opts = astTypeFromNode_body rec2 n opts.
Proof using sort_Slice_perm.
  intros Hrec. unfold astTypeFromNode_body, typeSwitch.
  destruct (t n); try reflexivity.
  - now rewrite (astStructTypeFromNode_ext rec1 rec2 n opts Hrec).
  - unfold astTypeFromMapNode.
    destruct (children n) as [|child0 rest]; [reflexivity|].
    rewrite (Hrec child0); [reflexivity|now left].
Qed.

(** Any budget that covers the height of the tree gives the same outcome. *)
Lemma astTypeFromNode_fuel_enough (fuel1 fuel2 : nat) (n : node) (opts : options) :
  height n <= fuel1 -> height n <= fuel2 ->
  astTypeFromNode_fuel fuel1 n opts = astTypeFromNode_fuel fuel2 n opts.
Proof using sort_Slice_perm.
  revert fuel2 n.
  induction fuel1 as [|fuel1 IH]; intros fuel2 n H1 H2.
  - destruct n; simpl in H1; lia.
  - destruct fuel2 as [|fuel2]; [destruct n; simpl in H2; lia|].
    simpl. apply astTypeFromNode_body_ext.
    intros c Hc. apply height_child in Hc. apply IH; lia.
Qed.

(** [astTypeFromNode] satisfies the recursive equation of the source. *)
Lemma astTypeFromNode_unfold (n : node) (opts : options) :
  astTypeFromNode n opts = astTypeFromNode_body astTypeFromNode n opts.
Proof using sort_Slice_perm.
  rewrite astTypeFromNode_step.
  apply astTypeFromNode_body_ext.
  intros c Hc. unfold astTypeFromNode.
  pose proof (height_child n c Hc) as Hlt.
  apply astTypeFromNode_fuel_enough; [|lia].
  destruct n; simpl in *; lia.
Qed.

(** ** Pointer policy on scalars, arrays, maps and timestamps *)

Ltac scalar_case Hkind :=
  rewrite astTypeFromNode_step;
  unfold astTypeFromNode_body, typeSwitch, astTypeFromTimeNode;
  rewrite Hkind; simpl; unfold astTypeShouldBeAPointer; simpl.

(** C2, as the code has it: a non-root node of boolean, integer or float
    kind without array wrapping is a pointer to its primitive type exactly
    when it is nullable or not required, whatever the options; the
    not-required case cannot be switched off for these kinds. *)
Theorem C2_numeric_pointer_iff_nullable_or_not_required
  (n : node) (opts : options) (prim : string) :
  (t n = nodeBoolType /\ prim = "bool") \/
  (t n = nodeIntType /\ prim = "int64") \/
  (t n = nodeFloatType /\ prim = "float64") ->
  root n = false -> arrayLevel n = 0 ->
  astTypeFromNode n opts =
  Ok (pointerIf (nullable n || negb (required n)) (goIdent prim)).
Proof using Type.
  intros Hkind Hroot Hlevel.
  destruct Hkind as [[Hk ->]|[[Hk ->]|[Hk ->]]];
    scalar_case Hk; rewrite Hroot, Hlevel; simpl;
    rewrite andb_true_r; now destruct (nullable n || negb (required n)).
Qed.

(** C3: under [stringPointersWhenKeyMissing = true], a non-root string
    node without array wrapping is the plain [string] when it is required
    and not nullable, [*string] when it is not required and not nullable,
    and [*string] when it is nullable, whatever [required] is. *)
Theorem C3_string_pointer_boundary (n : node) (opts : options) :
  t n = nodeStringType -> root n = false -> arrayLevel n = 0 ->
  stringPointersWhenKeyMissing opts = true ->
  (nullable n = false -> required n = true ->
   astTypeFromNode n opts = Ok (goIdent "string")) /\
  (nullable n = false -> required n = false ->
   astTypeFromNode n opts = Ok (ast.StarExpr (goIdent "string"))) /\
  (nullable n = true ->
   astTypeFromNode n opts = Ok (ast.StarExpr (goIdent "string"))).
Proof using Type.
  intros Hkind Hroot Hlevel Hopt.
  repeat split; intros; scalar_case Hkind; rewrite Hroot, Hlevel, Hopt; simpl.
  - now rewrite H, H0.
  - now rewrite H, H0.
  - now rewrite H.
Qed.

(** The equation of the source with the outcome of the [switch] at hand. *)
Lemma astTypeFromNode_after_switch (n : node) (opts : options)
  (base : ast.Expr) (notRequiredAsPointer allowPointer : bool) :
  typeSwitch astTypeFromNode n opts = Ok (base, notRequiredAsPointer, allowPointer) ->
  astTypeFromNode n opts =
  Ok (Nat.iter (arrayLevel n) ast.ArrayType
        (pointerIf (astTypeShouldBeAPointer n notRequiredAsPointer allowPointer)
                   base)).
Proof using sort_Slice_perm.
  intros Hswitch. rewrite astTypeFromNode_unfold.
  unfold astTypeFromNode_body. rewrite Hswitch. reflexivity.
Qed.

(** The kinds that allow a pointer: all but the interface, init and map
    kinds. *)
Lemma typeSwitch_allowPointer (rec : node -> options -> result ast.Expr)
  (n : node) (opts : options) (base : ast.Expr)
  (notRequiredAsPointer allowPointer : bool) :
  typeSwitch rec n opts = Ok (base, notRequiredAsPointer, allowPointer) ->
  allowPointer = match t n with
                 | nodeInterfaceType | nodeInitType | nodeMapType => false
                 | _ => true
                 end.
Proof using Type.
  unfold typeSwitch. destruct (t n); intros H; try (now inversion H).
  - destruct (astStructTypeFromNode rec n opts); now inversion H.
  - destruct (astTypeFromMapNode rec n opts); now inversion H.
Qed.

(** C4: for a node whose kind allows a pointer and whose [switch] gives
    the base type [base], with [arrayLevel > 0] the pointer decision is
    [arrayWithNulls] alone (not [nullable], [required] or [root]); it is
    taken once and the outcome is wrapped in [arrayLevel] array levels.
    With [arrayLevel = 1] this is an array of [*base] when
    [arrayWithNulls] is set and an array of [base] otherwise. *)
Theorem C4_array_pointer_boundary (n : node) (opts : options)
  (base : ast.Expr) (notRequiredAsPointer : bool) :
  typeSwitch astTypeFromNode n opts = Ok (base, notRequiredAsPointer, true) ->
  (0 < arrayLevel n ->
   astTypeFromNode n opts =
   Ok (Nat.iter (arrayLevel n) ast.ArrayType (pointerIf (arrayWithNulls n) base))) /\
  (arrayLevel n = 1 -> arrayWithNulls n = true ->
   astTypeFromNode n opts = Ok (ast.ArrayType (ast.StarExpr base))) /\
  (arrayLevel n = 1 -> arrayWithNulls n = false ->
   astTypeFromNode n opts = Ok (ast.ArrayType base)).
Proof using sort_Slice_perm.
  intros Hswitch.
  assert (Hgen : 0 < arrayLevel n ->
                 astTypeFromNode n opts =
                 Ok (Nat.iter (arrayLevel n) ast.ArrayType
                       (pointerIf (arrayWithNulls n) base))).
  { intros Hlevel. rewrite (astTypeFromNode_after_switch _ _ Hswitch).
    unfold astTypeShouldBeAPointer. simpl.
    destruct (arrayLevel n) as [|k]; [lia|].
    rewrite andb_false_r. simpl. now destruct (arrayWithNulls n). }
  repeat split; [exact Hgen| |]; intros Hone Hnulls;
    (rewrite Hgen by lia); rewrite Hone, Hnulls; reflexivity.
Qed.


(** C6: for a timestamp node, with [timeAsStr = false] the base type is
    the alias form [= time.Time] at the root and [time.Time] elsewhere;
    with [timeAsStr = true] it is [string] in both positions, and the
    pointer rule then takes its not-required flag from
    [stringPointersWhenKeyMissing]. *)
Theorem C6_timestamp_root_vs_nested (n : node) (opts : options) :
  t n = nodeTimeType ->
  (timeAsStr opts = false -> root n = true ->
   astTypeFromTimeNode n opts = goIdent "= time.Time") /\
  (timeAsStr opts = false -> root n = false ->
   astTypeFromTimeNode n opts = goIdent "time.Time") /\
  (timeAsStr opts = true ->
   astTypeFromTimeNode n opts = goIdent "string" /\
   astTypeFromNode n opts =
   Ok (Nat.iter (arrayLevel n) ast.ArrayType
         (pointerIf (astTypeShouldBeAPointer n (stringPointersWhenKeyMissing opts) true)
                    (goIdent "string")))) /\
  (timeAsStr opts = false ->
   astTypeFromNode n opts =
   Ok (Nat.iter (arrayLevel n) ast.ArrayType
         (pointerIf (astTypeShouldBeAPointer n true true)
                    (astTypeFromTimeNode n opts)))).
Proof using Type.
  intros Hkind.
  assert (Hnode : forall b, timeAsStr opts = b ->
            astTypeFromNode n opts =
            Ok (Nat.iter (arrayLevel n) ast.ArrayType
                  (pointerIf
                     (astTypeShouldBeAPointer n
                        (if b then stringPointersWhenKeyMissing opts else true) true)
                     (astTypeFromTimeNode n opts)))).
  { intros b Hopt. rewrite astTypeFromNode_step.
    unfold astTypeFromNode_body, typeSwitch. rewrite Hkind, Hopt. reflexivity. }
  split; [|split; [|split]].
  - intros Hopt Hroot. unfold astTypeFromTimeNode. now rewrite Hopt, Hroot.
  - intros Hopt Hroot. unfold astTypeFromTimeNode. now rewrite Hopt, Hroot.
  - intros Hopt.
    assert (Hbase : astTypeFromTimeNode n opts = goIdent "string")
      by (unfold astTypeFromTimeNode; now rewrite Hopt).
    split; [exact Hbase|]. rewrite (Hnode true Hopt). now rewrite Hbase.
  - intros Hopt. exact (Hnode false Hopt).
Qed.

(** C10: with [timeAsStr = false], a non-root timestamp node without
    array wrapping that is neither nullable nor required is
    [*time.Time], whatever [stringPointersWhenKeyMissing] is; the
    [switch] takes the not-required flag of a timestamp from
    [stringPointersWhenKeyMissing] only when [timeAsStr] is set and
    leaves it true otherwise. *)
Theorem C10_optional_timestamp_is_pointer (n : node) (opts : options) :
  t n = nodeTimeType ->
  (forall rec,
      typeSwitch rec n opts =
      Ok (astTypeFromTimeNode n opts,
          if timeAsStr opts then stringPointersWhenKeyMissing opts else true,
          true)) /\
  (root n = false -> arrayLevel n = 0 -> nullable n = false ->
   required n = false -> timeAsStr opts = false ->
   astTypeFromNode n opts = Ok (ast.StarExpr (goIdent "time.Time"))).
Proof using Type.
  intros Hkind. split.
  - intros rec. unfold typeSwitch. now rewrite Hkind.
  - intros Hroot Hlevel Hnull Hreq Hopt. scalar_case Hkind.
    now rewrite Hopt, Hroot, Hlevel, Hnull, Hreq.
Qed.

(** ** Struct layout *)

Lemma StronglySorted_map (A B : Type) (f : A -> B) (R : B -> B -> Prop)
  (l : list A) :
  StronglySorted R (map f l) <-> StronglySorted (fun a b => R (f a) (f b)) l.
Proof using Type.
  induction l as [|a l IH]; simpl; split; intros H; try constructor;
    inversion H as [|? ? Hl Ha]; subst.
  - now apply IH.
  - rewrite Forall_forall in *. intros x Hx. apply Ha. now apply in_map.
  - now apply IH.
  - rewrite Forall_forall in *. intros y Hy.
    apply in_map_iff in Hy as [x [<- Hx]]. now apply Ha.
Qed.

(** What [sortedChildren] holds after [sort.Slice]: the children, each
    under its own name, in ascending order of names. *)
Lemma sortedChildren_shape (n : node) :
  exists sorted,
    sort_Slice (map withName (children n)) nameLess = map withName sorted /\
    Permutation sorted (children n) /\ ascendingNames sorted.
Proof using sort_Slice_perm sort_Slice_sorted.
  set (S := sort_Slice (map withName (children n)) nameLess).
  exists (map sortedNode S).
  assert (HS : map withName (map sortedNode S) = S).
  { rewrite map_map. rewrite <- (map_id S) at 2. apply map_ext_in.
    intros c Hc. apply sortedChildren_In in Hc as [_ Hc]. now symmetry. }
  split; [now symmetry|]. split.
  - replace (children n) with (map sortedNode (map withName (children n))).
    + apply Permutation_map, sort_Slice_perm.
    + rewrite map_map. apply map_id.
  - unfold ascendingNames.
    apply (StronglySorted_map withName (fun a b => notAfter (sortedName a) (sortedName b))).
    rewrite HS. apply SliceIsSorted_ascending, sort_Slice_sorted.
Qed.

(** The fields of a struct, read off the sorted children. *)
Lemma astStructTypeFromNode_sorted (rec : node -> options -> result ast.Expr)
  (n : node) (opts : options) :
  exists sorted,
    Permutation sorted (children n) /\ ascendingNames sorted /\
    astStructTypeFromNode rec n opts =
    (fields <- appendEach (fun child => fieldFromChild rec opts (withName child))
                          sorted ;;
     Ok (ast.StructType (ast.Build_FieldList 0 fields 0))).
Proof using sort_Slice_perm sort_Slice_sorted.
  destruct (sortedChildren_shape n) as [sorted [HS [Hperm Hasc]]].
  exists sorted. repeat split; try assumption.
  unfold astStructTypeFromNode. rewrite HS.
  rewrite (appendEach_map (fieldFromChild rec opts)
             (fun child => fieldFromChild rec opts (withName child))
             (map withName sorted) sorted); [reflexivity|].
  now rewrite map_map.
Qed.

Lemma plainByte_not_dquote (c : ascii) :
  plainByte c = true -> Ascii.eqb c dquote = false.
Proof using Type.
  unfold plainByte. intros Hc.
  apply andb_prop in Hc as [Hc _]. apply andb_prop in Hc as [_ Hc].
  now apply negb_true_iff in Hc.
Qed.

Lemma TrimRightFunc_plain (s : string) :
  plainKey s = true ->
  TrimRightFunc (s ++ String dquote EmptyString) (fun a => Ascii.eqb a dquote) = s.
Proof using Type.
  induction s as [|c s IH]; [reflexivity|]. simpl. intros Hplain.
  apply andb_prop in Hplain as [Hc Hs]. rewrite (IH Hs).
  destruct s as [|c' s']; [|reflexivity].
  now rewrite (plainByte_not_dquote _ Hc).
Qed.

Lemma TrimByte_plain (s : string) :
  plainKey s = true ->
  TrimByte (String dquote (s ++ String dquote EmptyString)) dquote = s.
Proof using Type.
  intros Hplain. unfold TrimByte.
  destruct s as [|c s]; [reflexivity|].
  pose proof Hplain as Hc. simpl in Hc. apply andb_prop in Hc as [Hc _].
  change (TrimLeftFunc (String dquote (String c s ++ String dquote EmptyString))
                       (fun a => Ascii.eqb a dquote))
    with (if Ascii.eqb c dquote
          then TrimLeftFunc (s ++ String dquote EmptyString) (fun a => Ascii.eqb a dquote)
          else String c s ++ String dquote EmptyString).
  rewrite (plainByte_not_dquote _ Hc).
  exact (TrimRightFunc_plain (String c s) Hplain).
Qed.


Lemma astJSONTag_plain (key : string) (omitempty : bool) :
  plainKey key = true ->
  astJSONTag key omitempty = {| ast.Value := jsonTagLiteral key omitempty |}.
Proof using strconv_Quote_plain.
  intros Hplain. unfold astJSONTag.
  rewrite (strconv_Quote_plain _ Hplain), (TrimByte_plain _ Hplain).
  now destruct omitempty.
Qed.

(** The fields of a synthesized struct, one per sorted child. *)
Lemma astStructTypeFromNode_fields (rec : node -> options -> result ast.Expr)
  (n : node) (opts : options) (e : ast.Expr) :
  astStructTypeFromNode rec n opts = Ok e ->
  exists sorted fields,
    e = ast.StructType (ast.Build_FieldList 0 fields 0) /\
    Permutation sorted (children n) /\ ascendingNames sorted /\
    Forall2 (fun child f =>
               exists ty, rec child opts = Ok ty /\
                 f = ast.Build_Field [ast.NewIdent (name child)] ty
                       (astJSONTag (key child) (negb (required child))))
            sorted fields.
Proof using sort_Slice_perm sort_Slice_sorted.
  destruct (astStructTypeFromNode_sorted rec n opts) as [sorted [Hperm [Hasc ->]]].
  intros He.
  destruct (appendEach _ sorted) as [fields|v] eqn:Hfields; [|discriminate].
  simpl in He. injection He as <-.
  exists sorted, fields. repeat split; try assumption.
  apply appendEach_Ok in Hfields.
  eapply Forall2_impl; [|exact Hfields].
  intros child f Hf. unfold fieldFromChild in Hf. simpl in Hf.
  destruct (rec child opts) as [ty|v]; [|discriminate].
  injection Hf as <-. now exists ty.
Qed.

(** C1: the root object [Person] with a required string child [name] and
    a not-required integer child [age], in either order, under
    [stringPointersWhenKeyMissing = true] and [timeAsStr = false], is
    declared as the struct type [Person] with the fields [age], of type
    [*int64] and tag [json:"age,omitempty"], then [name], of type [string]
    and tag [json:"name"]. *)
Theorem C1_person_declaration
  (nu rq awn awn1 awn2 : bool) (k x x1 x2 : string) (cs cs1 cs2 : list node) :
  let nameNode :=
    Build_node false false true "name" "name" nodeStringType x1 0 awn1 cs1 in
  let ageNode :=
    Build_node false false false "age" "age" nodeIntType x2 0 awn2 cs2 in
  let person :=
    Build_node true nu rq k "Person" nodeObjectType x 0 awn cs in
  let opts := {| stringPointersWhenKeyMissing := true; timeAsStr := false |} in
  Permutation cs [nameNode; ageNode] ->
  astMakeDecls [person] opts =
  Ok [ {| ast.Tok := token.TYPE;
          ast.Specs :=
            [ {| ast.SpecName := ast.NewIdent "Person";
                 ast.SpecType :=
                   ast.StructType
                     (ast.Build_FieldList 0
                        [ ast.Build_Field [ast.NewIdent "age"]
                            (ast.StarExpr (goIdent "int64"))
                            {| ast.Value := jsonTagLiteral "age" true |};
                          ast.Build_Field [ast.NewIdent "name"]
                            (goIdent "string")
                            {| ast.Value := jsonTagLiteral "name" false |} ]
                        0) |} ] |} ].
Proof using sort_Slice_perm sort_Slice_sorted strconv_Quote_plain.
  intros nameNode ageNode person opts Hcs.
  assert (Hage : astTypeFromNode ageNode opts = Ok (ast.StarExpr (goIdent "int64")))
    by (rewrite astTypeFromNode_step; reflexivity).
  assert (Hname : astTypeFromNode nameNode opts = Ok (goIdent "string"))
    by (rewrite astTypeFromNode_step; reflexivity).
  assert (Hperson : astTypeFromNode person opts =
                    astStructTypeFromNode astTypeFromNode person opts).
  { rewrite astTypeFromNode_unfold. unfold astTypeFromNode_body, typeSwitch.
    simpl t. now destruct (astStructTypeFromNode astTypeFromNode person opts). }
  unfold astMakeDecls, appendEach. rewrite Hperson.
  destruct (astStructTypeFromNode_sorted astTypeFromNode person opts)
    as [sorted [Hperm [Hasc ->]]].
  assert (Hsorted : [ageNode; nameNode] = sorted).
  { apply (ascending_unique name).
    - transitivity [nameNode; ageNode]; [apply perm_swap|].
      symmetry. now transitivity cs.
    - constructor; [intros [H|[]]; discriminate H|].
      constructor; [intros []|constructor].
    - repeat constructor.
    - exact Hasc. }
  rewrite <- Hsorted. unfold appendEach, fieldFromChild. simpl sortedNode.
  rewrite Hage, Hname. simpl.
  rewrite !astJSONTag_plain by reflexivity. reflexivity.
Qed.


(** ** Totality and panics *)

Lemma allRecognized_children (n child : node) :
  allRecognized n = true -> In child (children n) ->
  allRecognized child = true.
Proof using Type.
  destruct n as [r nu rq k nm ty x al awn cs]. simpl. intros Hn Hin.
  apply andb_prop in Hn as [_ Hcs].
  rewrite forallb_forall in Hcs. now apply Hcs.
Qed.

Lemma astTypeFromNode_total (n : node) (opts : options) :
  allRecognized n = true -> exists e, astTypeFromNode n opts = Ok e.
Proof using sort_Slice_perm sort_Slice_sorted.
  remember (height n) as h eqn:Hh.
  assert (Hle : height n <= h) by lia. clear Hh.
  revert n Hle. induction h as [|h IH]; intros n Hle Hrec.
  - destruct n; simpl in Hle; lia.
  - assert (Hchild : forall c, In c (children n) ->
                                exists e, astTypeFromNode c opts = Ok e).
    { intros c Hc. apply IH.
      - apply height_child in Hc. lia.
      - eapply allRecognized_children; eassumption. }
    assert (Hswitch : exists out, typeSwitch astTypeFromNode n opts = Ok out).
    { unfold typeSwitch.
      destruct (t n) eqn:Hkind; try (eexists; reflexivity).
      - destruct (astStructTypeFromNode_sorted astTypeFromNode n opts)
          as [sorted [Hperm [_ ->]]].
        destruct (@appendEach_total _ _
                    (fun child => fieldFromChild astTypeFromNode opts (withName child))
                    sorted) as [fields ->].
        + apply Forall_forall. intros c Hc.
          destruct (Hchild c (Permutation_in _ Hperm Hc)) as [ty Hty].
          unfold fieldFromChild. simpl. rewrite Hty. simpl. eexists; reflexivity.
        + simpl. eexists; reflexivity.
      - unfold astTypeFromMapNode.
        destruct (children n) as [|child0 rest]; [eexists; reflexivity|].
        destruct (Hchild child0 (or_introl eq_refl)) as [ty ->].
        simpl. eexists; reflexivity.
      - destruct n as [r nu rq k nm ty x al awn cs]. simpl in *. subst ty.
        discriminate. }
    destruct Hswitch as [[[base nrap] ap] Hswitch].
    rewrite (astTypeFromNode_after_switch _ _ Hswitch). eexists; reflexivity.
Qed.

Lemma astTypeFromNode_reached_unknown (n m : node) (opts : options) (v : string) :
  reached n m -> t m = nodeOtherType v ->
  exists msg, astTypeFromNode n opts = Panic msg.
Proof using sort_Slice_perm sort_Slice_sorted.
  intros Hreach Hm.
  induction Hreach as [n|n child m Hkind Hin _ IH|n child rest m Hkind Hcs _ IH];
    rewrite astTypeFromNode_unfold; unfold astTypeFromNode_body, typeSwitch.
  - rewrite Hm. simpl. eexists; reflexivity.
  - rewrite Hkind.
    destruct (astStructTypeFromNode_sorted astTypeFromNode n opts)
      as [sorted [Hperm [_ ->]]].
    destruct (IH Hm) as [msg Hmsg].
    destruct (@appendEach_Panic _ _
                (fun c => fieldFromChild astTypeFromNode opts (withName c))
                sorted child msg) as [msg' ->].
    + apply (Permutation_in _ (Permutation_sym Hperm) Hin).
    + unfold fieldFromChild. simpl. now rewrite Hmsg.
    + simpl. eexists; reflexivity.
  - rewrite Hkind. unfold astTypeFromMapNode. rewrite Hcs.
    destruct (IH Hm) as [msg ->]. simpl. eexists; reflexivity.
Qed.

(** C9: on roots whose trees hold only recognized kinds the synthesizer
    returns one declaration per root; a node of any other kind panics
    with [unknown type: v]; and when such a node is reached from one of
    the roots, the whole call panics and returns no declaration. *)
Theorem C9_total_or_panic (roots : list node) (opts : options) :
  (forallb allRecognized roots = true ->
   exists decls, astMakeDecls roots opts = Ok decls /\
                 List.length decls = List.length roots) /\
  (forall n v, t n = nodeOtherType v ->
               astTypeFromNode n opts = Panic ("unknown type: " ++ v)) /\
  (forall r m v, In r roots -> reached r m -> t m = nodeOtherType v ->
                 exists msg, astMakeDecls roots opts = Panic msg).
Proof using sort_Slice_perm sort_Slice_sorted.
  split; [|split].
  - intros Hroots. unfold astMakeDecls.
    induction roots as [|r roots IH]; simpl; [now exists []|].
    simpl in Hroots. apply andb_prop in Hroots as [Hr Hroots].
    destruct (astTypeFromNode_total r opts Hr) as [e ->].
    destruct (IH Hroots) as [decls [-> Hlen]]. simpl.
    eexists; split; [reflexivity|]. simpl. now rewrite Hlen.
  - intros n v Hkind. rewrite astTypeFromNode_step.
    unfold astTypeFromNode_body, typeSwitch. now rewrite Hkind.
  - intros r m v Hin Hreach Hm.
    destruct (astTypeFromNode_reached_unknown opts Hreach Hm) as [msg Hmsg].
    unfold astMakeDecls.
    eapply appendEach_Panic; [exact Hin|]. now rewrite Hmsg.
Qed.

(** ** Independence from the order of the children *)







(** ** Further properties of the synthesizer *)

(** The base type the [switch] leaves is never an array or a pointer, and
    is a name or a struct whenever the kind allows a pointer. *)
Lemma typeSwitch_base_shape (rec : node -> options -> result ast.Expr)
  (n : node) (opts : options) (base : ast.Expr)
  (notRequiredAsPointer allowPointer : bool) :
  typeSwitch rec n opts = Ok (base, notRequiredAsPointer, allowPointer) ->
  arrayDepth base = 0 /\ (forall x, base <> ast.StarExpr x) /\
  (allowPointer = true -> pointee base = true).
Proof using Type.
  unfold typeSwitch, astTypeFromTimeNode, astStructTypeFromNode,
    astTypeFromMapNode, astTypeFromExtractedNode.
  destruct (t n); intros H;
    try (inversion H; subst; repeat split; solve [reflexivity | discriminate]).
  - destruct (timeAsStr opts); [|destruct (root n)];
      inversion H; subst; repeat split; discriminate.
  - destruct (appendEach _ _); inversion H; subst.
    repeat split; discriminate.
  - destruct (match children n with [] => _ | _ => _ end);
      inversion H; subst. repeat split; discriminate.
Qed.

(** A root without array wrapping is declared as the base type of its
    kind, never as a pointer. *)
Theorem root_is_never_a_pointer (n : node) (opts : options) (e : ast.Expr) :
  root n = true -> arrayLevel n = 0 ->
  astTypeFromNode n opts = Ok e ->
  (exists notRequiredAsPointer allowPointer,
      typeSwitch astTypeFromNode n opts =
      Ok (e, notRequiredAsPointer, allowPointer)) /\
  (forall x, e <> ast.StarExpr x) /\ arrayDepth e = 0.
Proof using sort_Slice_perm.
  intros Hroot Hlevel He.
  rewrite astTypeFromNode_unfold in He. unfold astTypeFromNode_body in He.
  destruct (typeSwitch astTypeFromNode n opts) as [[[base nr] ap]|v] eqn:Hswitch;
    [|discriminate].
  simpl in He. unfold astTypeShouldBeAPointer in He.
  rewrite Hroot, Hlevel in He. simpl in He.
  replace (if negb ap then false else false) with false in He by (now destruct ap).
  injection He as <-.
  destruct (typeSwitch_base_shape _ _ _ Hswitch) as [Hdepth [Hstar _]].
  split; [now exists nr, ap|]. now split.
Qed.

(** Interface and init nodes are the empty interface under [arrayLevel]
    array levels, whatever their flags and the options are. *)
Theorem interface_ignores_flags (n : node) (opts : options) :
  t n = nodeInterfaceType \/ t n = nodeInitType ->
  astTypeFromNode n opts =
  Ok (Nat.iter (arrayLevel n) ast.ArrayType newEmptyInterfaceExpr).
Proof using Type.
  intros [Hkind|Hkind]; rewrite astTypeFromNode_step;
    unfold astTypeFromNode_body, typeSwitch; rewrite Hkind; reflexivity.
Qed.

(** An extracted node is the name [externalTypeID], or [name] when
    [externalTypeID] is empty; outside the root and arrays it is a pointer
    exactly when the node is nullable or not required. *)
Theorem extracted_name_and_pointer (n : node) (opts : options) :
  t n = nodeExtractedType -> root n = false -> arrayLevel n = 0 ->
  astTypeFromNode n opts =
  Ok (pointerIf (nullable n || negb (required n))
        (goIdent (if (externalTypeID n =? EmptyString)%string
                  then name n else externalTypeID n))).
Proof using Type.
  intros Hkind Hroot Hlevel. rewrite astTypeFromNode_step.
  unfold astTypeFromNode_body, typeSwitch, astTypeFromExtractedNode.
  rewrite Hkind. simpl. unfold astTypeShouldBeAPointer.
  rewrite Hroot, Hlevel. simpl. rewrite andb_true_r.
  now destruct (nullable n || negb (required n)).
Qed.

(** A nested object outside arrays is its struct, under a pointer exactly
    when the node is nullable or not required, whatever the options. *)
Theorem nested_object_pointer (n : node) (opts : options) :
  t n = nodeObjectType -> root n = false -> arrayLevel n = 0 ->
  astTypeFromNode n opts =
  (st <- astStructTypeFromNode astTypeFromNode n opts ;;
   Ok (pointerIf (nullable n || negb (required n)) st)).
Proof using sort_Slice_perm.
  intros Hkind Hroot Hlevel. rewrite astTypeFromNode_unfold.
  unfold astTypeFromNode_body, typeSwitch. rewrite Hkind.
  destruct (astStructTypeFromNode astTypeFromNode n opts) as [st|v];
    [|reflexivity].
  simpl. unfold astTypeShouldBeAPointer. rewrite Hroot, Hlevel. simpl.
  rewrite andb_true_r. now destruct (nullable n || negb (required n)).
Qed.

(** Under [timeAsStr] a timestamp node is typed exactly as the string node
    with the same fields. *)
Theorem time_as_string_is_string
  (r nu rq awn : bool) (k nm x : string) (al : nat) (cs : list node)
  (opts : options) :
  timeAsStr opts = true ->
  astTypeFromNode (Build_node r nu rq k nm nodeTimeType x al awn cs) opts =
  astTypeFromNode (Build_node r nu rq k nm nodeStringType x al awn cs) opts.
Proof using Type.
  intros Hopt. rewrite !astTypeFromNode_step.
  unfold astTypeFromNode_body, typeSwitch, astTypeFromTimeNode. simpl.
  now rewrite Hopt.
Qed.

(** With [stringPointersWhenKeyMissing] off, a non-root string node
    outside arrays is [*string] exactly when it is nullable; [required]
    has no effect. *)
Theorem string_pointer_flag_off (n : node) (opts : options) :
  t n = nodeStringType -> root n = false -> arrayLevel n = 0 ->
  stringPointersWhenKeyMissing opts = false ->
  astTypeFromNode n opts = Ok (pointerIf (nullable n) (goIdent "string")).
Proof using Type.
  intros Hkind Hroot Hlevel Hopt. scalar_case Hkind.
  rewrite Hroot, Hlevel, Hopt. simpl. rewrite andb_false_r, orb_false_r.
  now destruct (nullable n).
Qed.

Lemma arrayDepth_iter (k : nat) (e : ast.Expr) :
  arrayDepth (Nat.iter k ast.ArrayType e) = k + arrayDepth e.
Proof using Type. induction k as [|k IH]; simpl; [reflexivity|now rewrite IH]. Qed.

Lemma wellShaped_iter (k : nat) (e : ast.Expr) :
  wellShaped (Nat.iter k ast.ArrayType e) = wellShaped e.
Proof using Type. induction k as [|k IH]; simpl; [reflexivity|exact IH]. Qed.

Lemma astTypeShouldBeAPointer_allowed (n : node) (nr ap : bool) :
  astTypeShouldBeAPointer n nr ap = true -> ap = true.
Proof using Type. unfold astTypeShouldBeAPointer. now destruct ap. Qed.

(** A synthesized type has exactly [arrayLevel] array levels at its top:
    the pointer, when there is one, is below all of them, and the base
    type adds none. *)
Theorem array_depth_is_arrayLevel (n : node) (opts : options) (e : ast.Expr) :
  astTypeFromNode n opts = Ok e -> arrayDepth e = arrayLevel n.
Proof using sort_Slice_perm.
  intros He. rewrite astTypeFromNode_unfold in He.
  unfold astTypeFromNode_body in He.
  destruct (typeSwitch astTypeFromNode n opts) as [[[base nr] ap]|v] eqn:Hswitch;
    [|discriminate].
  simpl in He. injection He as <-. rewrite arrayDepth_iter.
  destruct (typeSwitch_base_shape _ _ _ Hswitch) as [Hdepth _].
  destruct (astTypeShouldBeAPointer n nr ap); simpl; lia.
Qed.

Lemma typeSwitch_wellShaped (rec : node -> options -> result ast.Expr)
  (n : node) (opts : options) (base : ast.Expr) (nr ap : bool) :
  (forall c ty, In c (children n) -> rec c opts = Ok ty -> wellShaped ty = true) ->
  typeSwitch rec n opts = Ok (base, nr, ap) -> wellShaped base = true.
Proof using sort_Slice_perm sort_Slice_sorted.
  intros Hrec. unfold typeSwitch, astTypeFromTimeNode, astTypeFromExtractedNode.
  destruct (t n); intros H; try (inversion H; subst; reflexivity).
  - destruct (timeAsStr opts); [|destruct (root n)]; inversion H; reflexivity.
  - destruct (astStructTypeFromNode rec n opts) as [st|v] eqn:Hst; [|discriminate].
    simpl in H. injection H as <- _ _.
    destruct (astStructTypeFromNode_fields _ _ _ Hst)
      as [sorted [fields [-> [Hperm [_ Hfields]]]]].
    assert (Hsub : forall c, In c sorted -> In c (children n))
      by (intros c Hc; exact (Permutation_in _ Hperm Hc)).
    clear Hst Hperm. simpl.
    induction Hfields as [|c f l fs [ty [Hty ->]] _ IH]; [reflexivity|].
    simpl. rewrite (Hrec c ty); [|apply Hsub; now left|exact Hty].
    simpl. apply IH. intros c' Hc'. apply Hsub. now right.
  - unfold astTypeFromMapNode in H.
    destruct (children n) as [|child0 rest] eqn:Hcs.
    + inversion H; reflexivity.
    + destruct (rec child0 opts) as [ve|v] eqn:Hve; [|discriminate].
      simpl in H. injection H as <- _ _. simpl.
      apply (Hrec child0 ve); [now left|exact Hve].
Qed.

(** Every synthesized type is well shaped: a pointer points to a name
    or a struct, never to a pointer, an array, a map or the empty
    interface; maps are keyed by [string]; struct fields have one name. *)
Theorem synthesized_types_are_wellShaped (n : node) (opts : options)
  (e : ast.Expr) :
  astTypeFromNode n opts = Ok e -> wellShaped e = true.
Proof using sort_Slice_perm sort_Slice_sorted.
  remember (height n) as h eqn:Hh.
  assert (Hle : height n <= h) by lia. clear Hh.
  revert n e Hle. induction h as [|h IH]; intros n e Hle He.
  { destruct n; simpl in Hle; lia. }
  rewrite astTypeFromNode_unfold in He. unfold astTypeFromNode_body in He.
  destruct (typeSwitch astTypeFromNode n opts) as [[[base nr] ap]|v] eqn:Hswitch;
    [|discriminate].
  simpl in He. injection He as <-. rewrite wellShaped_iter.
  assert (Hbase : wellShaped base = true).
  { apply (typeSwitch_wellShaped astTypeFromNode n opts (nr := nr) (ap := ap));
      [|exact Hswitch].
    intros c ty Hc Hty. apply (IH c ty); [|exact Hty].
    apply height_child in Hc. lia. }
  destruct (astTypeShouldBeAPointer n nr ap) eqn:Hptr; [|exact Hbase].
  simpl. rewrite Hbase, andb_true_r.
  apply (typeSwitch_base_shape _ _ _ Hswitch).
  exact (astTypeShouldBeAPointer_allowed _ _ _ Hptr).
Qed.

(** ** What the options can change *)

Lemma anyNode_child (p : node -> bool) (n child : node) :
  In child (children n) -> anyNode p child = true -> anyNode p n = true.
Proof using Type.
  destruct n as [r nu rq k nm ty x al awn cs]. simpl. intros Hin Hp.
  apply orb_true_iff. right. apply existsb_exists. now exists child.
Qed.

Lemma anyNode_self (p : node -> bool) (n : node) :
  p n = true -> anyNode p n = true.
Proof using Type. destruct n; simpl. now intros ->. Qed.

(** Two settings of the options give the same type for a tree unless
    they differ on [stringPointersWhenKeyMissing] and the tree has a
    string node, or they differ on [timeAsStr], or on
    [stringPointersWhenKeyMissing] with [timeAsStr] set, and the tree has
    a timestamp node. *)
Theorem options_matter_for_strings_and_times_only
  (n : node) (opts opts' : options) :
  (anyNode isStringKind n = true ->
   stringPointersWhenKeyMissing opts = stringPointersWhenKeyMissing opts') ->
  (anyNode isTimeKind n = true ->
   timeAsStr opts = timeAsStr opts' /\
   (timeAsStr opts = true ->
    stringPointersWhenKeyMissing opts = stringPointersWhenKeyMissing opts')) ->
  astTypeFromNode n opts = astTypeFromNode n opts'.
Proof using sort_Slice_perm.
  remember (height n) as h eqn:Hh.
  assert (Hle : height n <= h) by lia. clear Hh.
  revert n Hle. induction h as [|h IH]; intros n Hle Hstr Htime.
  { destruct n; simpl in Hle; lia. }
  assert (Hrec : forall c, In c (children n) ->
                           astTypeFromNode c opts = astTypeFromNode c opts').
  { intros c Hc. apply IH.
    - apply height_child in Hc. lia.
    - intros Hp. apply Hstr. exact (anyNode_child _ _ _ Hc Hp).
    - intros Hp. apply Htime. exact (anyNode_child _ _ _ Hc Hp). }
  rewrite (astTypeFromNode_unfold n opts), (astTypeFromNode_unfold n opts').
  unfold astTypeFromNode_body.
  assert (Hswitch : typeSwitch astTypeFromNode n opts =
                    typeSwitch astTypeFromNode n opts').
  { unfold typeSwitch. destruct (t n) eqn:Hkind; try reflexivity.
    - rewrite Hstr; [reflexivity|].
      apply anyNode_self. unfold isStringKind. now rewrite Hkind.
    - destruct Htime as [Ht Hs];
        [apply anyNode_self; unfold isTimeKind; now rewrite Hkind|].
      unfold astTypeFromTimeNode. rewrite <- Ht.
      destruct (timeAsStr opts); [now rewrite Hs|reflexivity].
    - unfold astStructTypeFromNode.
      rewrite (appendEach_ext (fieldFromChild astTypeFromNode opts)
                              (fieldFromChild astTypeFromNode opts'));
        [reflexivity|].
      intros c Hc. apply sortedChildren_In in Hc as [Hc _].
      unfold fieldFromChild. now rewrite (Hrec _ Hc).
    - unfold astTypeFromMapNode.
      destruct (children n) as [|child0 rest]; [reflexivity|].
      rewrite (Hrec child0); [reflexivity|now left]. }
  now rewrite Hswitch.
Qed.

(** ** Where a panic comes from *)

Lemma appendEach_Panic_inv (A B : Type) (f : A -> result B) (l : list A)
  (v : string) :
  appendEach f l = Panic v ->
  exists l1 x l2, l = (l1 ++ x :: l2)%list /\ f x = Panic v /\
                  Forall (fun y => exists b, f y = Ok b) l1.
Proof using Type.
  induction l as [|a l IH]; simpl; intros H; [discriminate|].
  destruct (f a) as [b|va] eqn:Ha; simpl in H.
  - destruct (appendEach f l) as [bs|vl] eqn:Hl; simpl in H; [discriminate|].
    injection H as <-.
    destruct (IH eq_refl) as [l1 [x [l2 [-> [Hx Hl1]]]]].
    exists (a :: l1), x, l2. repeat split; try assumption.
    constructor; [now exists b|assumption].
  - injection H as <-. exists [], a, l. repeat split; [assumption|constructor].
Qed.

(** The synthesizer panics for one reason only: a node of a kind outside
    the [switch] was reached, and the message names that kind. *)
Theorem panic_names_an_unknown_kind (roots : list node) (opts : options)
  (msg : string) :
  astMakeDecls roots opts = Panic msg ->
  exists r m v,
    In r roots /\ reached r m /\ t m = nodeOtherType v /\
    msg = "unknown type: " ++ v.
Proof using sort_Slice_perm sort_Slice_sorted.
  assert (Hnode : forall h n, height n <= h ->
            astTypeFromNode n opts = Panic msg ->
            exists m v, reached n m /\ t m = nodeOtherType v /\
                        msg = "unknown type: " ++ v).
  { induction h as [|h IH]; intros n Hle Hn.
    { destruct n; simpl in Hle; lia. }
    rewrite astTypeFromNode_unfold in Hn. unfold astTypeFromNode_body in Hn.
    destruct (typeSwitch astTypeFromNode n opts) as [[[base nr] ap]|v] eqn:Hswitch;
      [discriminate|].
    simpl in Hn. injection Hn as ->.
    unfold typeSwitch in Hswitch.
    destruct (t n) eqn:Hkind; try discriminate.
    - destruct (astStructTypeFromNode_sorted astTypeFromNode n opts)
        as [sorted [Hperm [_ Hst]]].
      rewrite Hst in Hswitch.
      destruct (appendEach _ sorted) as [fields|v] eqn:Hfields; [discriminate|].
      simpl in Hswitch. injection Hswitch as ->.
      apply appendEach_Panic_inv in Hfields as [l1 [c [l2 [-> [Hc _]]]]].
      unfold fieldFromChild in Hc. simpl in Hc.
      destruct (astTypeFromNode c opts) as [ty|v] eqn:Hty; [discriminate|].
      simpl in Hc. injection Hc as ->.
      assert (Hin : In c (children n)).
      { apply (Permutation_in _ Hperm). apply in_elt. }
      destruct (IH c) as [m [v [Hreach [Hm Hmsg]]]];
        [apply height_child in Hin; lia|exact Hty|].
      exists m, v. repeat split; try assumption.
      eapply reached_field; eassumption.
    - unfold astTypeFromMapNode in Hswitch.
      destruct (children n) as [|child0 rest] eqn:Hcs; [discriminate|].
      destruct (astTypeFromNode child0 opts) as [ve|v] eqn:Hve; [discriminate|].
      simpl in Hswitch. injection Hswitch as ->.
      destruct (IH child0) as [m [v [Hreach [Hm Hmsg]]]]; [|exact Hve|].
      + assert (Hin : In child0 (children n)) by (rewrite Hcs; now left).
        apply height_child in Hin. lia.
      + exists m, v. repeat split; try assumption.
        eapply reached_value; eassumption.
    - injection Hswitch as <-. exists n, v. repeat split.
      + apply reached_self.
      + exact Hkind. }
  intros Hroots. unfold astMakeDecls in Hroots.
  apply appendEach_Panic_inv in Hroots as [l1 [r [l2 [-> [Hr _]]]]].
  destruct (astTypeFromNode r opts) as [ty|v] eqn:Hty; [discriminate|].
  simpl in Hr. injection Hr as ->.
  destruct (Hnode (height r) r (le_n _) Hty) as [m [v [Hreach [Hm Hmsg]]]].
  exists r, m, v. repeat split; try assumption. apply in_elt.
Qed.

(** ** Declarations and printing *)

Lemma appendEach_Ok_iff (A B : Type) (f : A -> result B) (l : list A)
  (ys : list B) :
  appendEach f l = Ok ys <-> Forall2 (fun x y => f x = Ok y) l ys.
Proof using Type.
  split; [apply appendEach_Ok|].
  induction 1 as [|x y l ys Hx _ IH]; simpl; [reflexivity|].
  now rewrite Hx, IH.
Qed.

Lemma appendEach_app (A B : Type) (f : A -> result B) (l1 l2 : list A) :
  appendEach f (l1 ++ l2)%list =
  (ys1 <- appendEach f l1 ;; ys2 <- appendEach f l2 ;; Ok (ys1 ++ ys2)%list).
Proof using Type.
  induction l1 as [|x l1 IH]; simpl.
  - now destruct (appendEach f l2).
  - destruct (f x) as [y|v]; simpl; [|reflexivity]. rewrite IH.
    destruct (appendEach f l1) as [ys1|v]; simpl; [|reflexivity].
    now destruct (appendEach f l2).
Qed.

(** [astMakeDecls] succeeds exactly when every root has a type, and then
    gives one [type] declaration per root, in the order of the roots,
    each with the single spec that names the root and holds its type. *)
Theorem astMakeDecls_one_declaration_per_root (roots : list node)
  (opts : options) (decls : list ast.Decl) :
  astMakeDecls roots opts = Ok decls <->
  Forall2 (fun r d =>
             exists ty, astTypeFromNode r opts = Ok ty /\
               d = {| ast.Tok := token.TYPE;
                      ast.Specs := [ {| ast.SpecName := ast.NewIdent (name r);
                                        ast.SpecType := ty |} ] |})
          roots decls.
Proof using Type.
  unfold astMakeDecls. rewrite appendEach_Ok_iff.
  split; intros H; (eapply Forall2_impl; [|exact H]); intros r d.
  - intros Hd. cbv beta in Hd.
    destruct (astTypeFromNode r opts) as [ty|v]; simpl in Hd; [|discriminate].
    injection Hd as <-. now exists ty.
  - intros [ty [-> ->]]. reflexivity.
Qed.

(** The declarations of two batches of roots put one after the other are
    the declarations of the first followed by those of the second; a
    panic in the first batch comes before one in the second. *)
Theorem astMakeDecls_app (roots1 roots2 : list node) (opts : options) :
  astMakeDecls (roots1 ++ roots2)%list opts =
  (decls1 <- astMakeDecls roots1 opts ;;
   decls2 <- astMakeDecls roots2 opts ;;
   Ok (decls1 ++ decls2)%list).
Proof using Type. apply appendEach_app. Qed.

(** The first root that panics decides the outcome: the roots after it
    are not looked at, and nothing is returned for the roots before it. *)
Theorem astMakeDecls_first_panic (before after : list node) (r : node)
  (opts : options) (msg : string) :
  Forall (fun y => exists ty, astTypeFromNode y opts = Ok ty) before ->
  astTypeFromNode r opts = Panic msg ->
  astMakeDecls (before ++ r :: after)%list opts = Panic msg.
Proof using Type.
  intros Hbefore Hr. unfold astMakeDecls. rewrite appendEach_app.
  destruct (@appendEach_total _ _
              (fun node =>
                 ty <- astTypeFromNode node opts ;;
                 Ok {| ast.Tok := token.TYPE;
                       ast.Specs := [ {| ast.SpecName := ast.NewIdent (name node);
                                         ast.SpecType := ty |} ] |})
              before) as [decls1 Hdecls1].
  - eapply Forall_impl; [|exact Hbefore].
    intros y [ty ->]. simpl. eexists; reflexivity.
  - rewrite Hdecls1. simpl. now rewrite Hr.
Qed.

Lemma prefix_append (p s : string) : String.prefix p (p ++ s) = true.
Proof using Type.
  induction p as [|c p IH]; simpl; [now destruct s|].
  destruct (ascii_dec c c) as [_|Hne]; [exact IH|now elim Hne].
Qed.

Lemma substring_whole (s : string) : String.substring 0 (String.length s) s = s.
Proof using Type. induction s as [|c s IH]; simpl; [reflexivity|now rewrite IH]. Qed.

Lemma TrimPrefix_append (p s : string) : TrimPrefix (p ++ s) p = s.
Proof using Type.
  unfold TrimPrefix. rewrite prefix_append.
  induction p as [|c p IH]; simpl.
  - rewrite Nat.sub_0_r. apply substring_whole.
  - exact IH.
Qed.

(** [astPrintDecls] drops the header [package main] when the printed file
    starts with it and keeps the text as it is otherwise; either way the
    space around what is left is trimmed. *)
Theorem astPrintDecls_strips_header (decls : list ast.Decl) (rest : string) :
  let printed :=
    printer_Fprint printerMode tabWidth
      {| ast.FileName := ast.NewIdent "main"; ast.Decls := decls |} in
  (printed = "package main" ++ rest ->
   astPrintDecls decls = strings_TrimSpace rest) /\
  (String.prefix "package main" printed = false ->
   astPrintDecls decls = strings_TrimSpace printed).
Proof using Type.
  intros printed. unfold astPrintDecls. fold printed. split; intros H.
  - rewrite H. now rewrite TrimPrefix_append.
  - unfold TrimPrefix. now rewrite H.
Qed.

(** ** Children: none, ignored, and found again as fields *)

(** An object without children is the struct without fields. *)
Theorem object_without_children_is_empty_struct (n : node) (opts : options) :
  t n = nodeObjectType -> children n = [] ->
  astTypeFromNode n opts =
  Ok (Nat.iter (arrayLevel n) ast.ArrayType
        (pointerIf (astTypeShouldBeAPointer n true true)
                   (ast.StructType (ast.Build_FieldList 0 [] 0)))).
Proof using sort_Slice_perm.
  intros Hkind Hcs. rewrite astTypeFromNode_step.
  unfold astTypeFromNode_body, typeSwitch. rewrite Hkind.
  unfold astStructTypeFromNode. rewrite Hcs. simpl map.
  rewrite (Permutation_nil (Permutation_sym (sort_Slice_perm [] nameLess))).
  reflexivity.
Qed.

(** Only objects and maps look at their children, and a map looks at its
    first child only: changing the children of a node of another kind, or
    the children of a map after the first, changes nothing. *)
Theorem unread_children_do_not_matter
  (r nu rq awn : bool) (k nm x : string) (ty : nodeType) (al : nat)
  (cs cs' : list node) (opts : options) :
  (readsChildren ty = false \/
   (ty = nodeMapType /\ hd_error cs = hd_error cs')) ->
  astTypeFromNode (Build_node r nu rq k nm ty x al awn cs) opts =
  astTypeFromNode (Build_node r nu rq k nm ty x al awn cs') opts.
Proof using sort_Slice_perm.
  intros [Hleaf|[-> Hhd]].
  - rewrite !astTypeFromNode_step.
    unfold astTypeFromNode_body, typeSwitch. simpl t.
    destruct ty; try discriminate; reflexivity.
  - rewrite !astTypeFromNode_unfold.
    unfold astTypeFromNode_body, typeSwitch, astTypeFromMapNode. simpl.
    destruct cs as [|c cs], cs' as [|c' cs']; try discriminate; [reflexivity|].
    simpl in Hhd. injection Hhd as <-. reflexivity.
Qed.

Lemma notAfter_distinct_ltb (a b : string) :
  notAfter a b -> a <> b -> (a <? b)%string = true.
Proof using Type.
  unfold notAfter, String.ltb. rewrite (String.compare_antisym a b).
  destruct (b ?= a)%string eqn:Hba; simpl; intros H Hne;
    first [reflexivity | discriminate H | idtac].
  elim Hne. symmetry. now apply String.compare_eq_iff.
Qed.

Lemma ascendingNames_strict (l : list node) :
  ascendingNames l -> NoDup (map name l) -> strictlyAscending (map name l).
Proof using Type.
  unfold ascendingNames, strictlyAscending.
  induction 1 as [|a l Hl IH Ha]; intros Hnd; simpl; [constructor|].
  inversion Hnd as [|? ? Hnotin Hnd']; subst.
  constructor; [now apply IH|].
  apply Forall_forall. intros b Hb.
  apply in_map_iff in Hb as [c [<- Hc]].
  rewrite Forall_forall in Ha.
  apply notAfter_distinct_ltb; [now apply Ha|].
  intros Heq. apply Hnotin. rewrite Heq. now apply in_map.
Qed.

(** When the children of an object have pairwise distinct names, its
    struct has as many fields as the object has children, the field names
    are strictly ascending, and every child is found again as the field
    that carries its name, its type and its tag. *)
Theorem struct_fields_of_distinct_children (n : node) (opts : options)
  (e : ast.Expr) :
  distinct (map name (children n)) = true ->
  astStructTypeFromNode astTypeFromNode n opts = Ok e ->
  exists fields,
    e = ast.StructType (ast.Build_FieldList 0 fields 0) /\
    List.length fields = List.length (children n) /\
    strictlyAscending (map ast.Name (flat_map ast.Names fields)) /\
    forall child, In child (children n) ->
      exists ty, astTypeFromNode child opts = Ok ty /\
                 In (ast.Build_Field [ast.NewIdent (name child)] ty
                       (astJSONTag (key child) (negb (required child))))
                    fields.
Proof using sort_Slice_perm sort_Slice_sorted.
  intros Hdistinct He.
  destruct (astStructTypeFromNode_fields _ _ _ He)
    as [sorted [fields [-> [Hperm [Hasc Hfields]]]]].
  exists fields. split; [reflexivity|].
  assert (Hnames : map ast.Name (flat_map ast.Names fields) = map name sorted).
  { clear He Hperm Hasc.
    induction Hfields as [|c f l fs [ty [_ ->]] _ IH]; [reflexivity|].
    simpl. now rewrite IH. }
  split; [|split].
  - rewrite <- (Forall2_length Hfields). now apply Permutation_length.
  - rewrite Hnames. apply ascendingNames_strict; [exact Hasc|].
    apply (Permutation_NoDup (l := map name (children n)));
      [symmetry; now apply Permutation_map|now apply distinct_NoDup].
  - intros child Hchild.
    apply (Permutation_in _ (Permutation_sym Hperm)) in Hchild.
    clear He Hperm Hasc Hnames.
    induction Hfields as [|c f l fs [ty [Hty ->]] _ IH]; [contradiction|].
    destruct Hchild as [->|Hchild].
    + exists ty. split; [exact Hty|now left].
    + destruct (IH Hchild) as [ty' [Hty' Hin]]. exists ty'.
      split; [exact Hty'|now right].
Qed.

(** The type of a node does not depend on its own key, and depends on its
    name and external type id only when the node is of the extracted
    kind: keys and names matter to the parent's field and to the
    declaration, not to the type. *)
Theorem own_key_and_name_do_not_matter
  (r nu rq awn : bool) (k k' nm nm' x x' : string) (ty : nodeType) (al : nat)
  (cs : list node) (opts : options) :
  ty <> nodeExtractedType \/ (nm = nm' /\ x = x') ->
  astTypeFromNode (Build_node r nu rq k nm ty x al awn cs) opts =
  astTypeFromNode (Build_node r nu rq k' nm' ty x' al awn cs) opts.
Proof using Type.
  intros Hkind. rewrite !astTypeFromNode_step.
  unfold astTypeFromNode_body, typeSwitch. simpl t.
  destruct ty; try reflexivity.
  destruct Hkind as [Hne|[-> ->]]; [now elim Hne|reflexivity].
Qed.

(** ** Tags tell keys apart *)

Lemma append_cut_unique (k1 k2 t1 t2 : string) (h1 h2 : ascii) :
  plainKey k1 = true -> commaFree k1 = true ->
  plainKey k2 = true -> commaFree k2 = true ->
  plainByte h1 && negb (Ascii.eqb h1 (ascii_of_nat 44)) = false ->
  plainByte h2 && negb (Ascii.eqb h2 (ascii_of_nat 44)) = false ->
  k1 ++ String h1 t1 = k2 ++ String h2 t2 ->
  k1 = k2 /\ String h1 t1 = String h2 t2.
Proof using Type.
  revert k2. induction k1 as [|c1 k1 IH]; intros [|c2 k2];
    simpl; intros Hp1 Hc1 Hp2 Hc2 Hh1 Hh2 Heq.
  - now split.
  - injection Heq as -> _.
    apply andb_prop in Hp2 as [Hp2 _]. apply andb_prop in Hc2 as [Hc2 _].
    rewrite Hp2, Hc2 in Hh1. discriminate.
  - injection Heq as -> _.
    apply andb_prop in Hp1 as [Hp1 _]. apply andb_prop in Hc1 as [Hc1 _].
    rewrite Hp1, Hc1 in Hh2. discriminate.
  - injection Heq as -> Heq.
    apply andb_prop in Hp1 as [_ Hp1]. apply andb_prop in Hc1 as [_ Hc1].
    apply andb_prop in Hp2 as [_ Hp2]. apply andb_prop in Hc2 as [_ Hc2].
    destruct (IH k2 Hp1 Hc1 Hp2 Hc2 Hh1 Hh2 Heq) as [-> Ht]. now split.
Qed.

(** Two keys of printable ASCII characters other than the double quote,
    the backslash and the comma get the same tag only when they are the
    same key with the same [omitempty]; a comma in the key breaks this:
    the required key [a,omitempty] and the not-required key [a] share
    one tag. *)
Theorem tag_identifies_key_and_marker (key1 key2 : string)
  (omitempty1 omitempty2 : bool) :
  (plainKey key1 = true -> commaFree key1 = true ->
   plainKey key2 = true -> commaFree key2 = true ->
   astJSONTag key1 omitempty1 = astJSONTag key2 omitempty2 ->
   key1 = key2 /\ omitempty1 = omitempty2) /\
  astJSONTag "a,omitempty" false = astJSONTag "a" true.
Proof using strconv_Quote_plain.
  split.
  - intros Hp1 Hc1 Hp2 Hc2.
    rewrite (astJSONTag_plain _ _ Hp1), (astJSONTag_plain _ _ Hp2).
    unfold jsonTagLiteral. intros Heq. injection Heq as Heq.
    assert (Hcut : key1 = key2 /\
              (if omitempty1 then ",omitempty" else EmptyString) ++ String dquote "`" =
              (if omitempty2 then ",omitempty" else EmptyString) ++ String dquote "`").
    { destruct omitempty1, omitempty2;
        (refine (append_cut_unique _ _ _ _ _ _ Hp1 Hc1 Hp2 Hc2 _ _ Heq);
         reflexivity). }
    destruct Hcut as [-> Hmarker]. split; [reflexivity|].
    destruct omitempty1, omitempty2; first [reflexivity | discriminate Hmarker].
  - rewrite !astJSONTag_plain by reflexivity. reflexivity.
Qed.

End Synthesizer.

(** ** The library functions on small inputs meet the contracts *)

Lemma insertLess_perm (A : Type) (less : A -> A -> bool) (e : A) (revPrefix : list A) :
  Permutation (insertLess less e revPrefix) (e :: revPrefix).
Proof.
  induction revPrefix as [|p l IH]; simpl; [reflexivity|].
  destruct (less e p); [|reflexivity].
  transitivity (p :: e :: l); [now constructor|apply perm_swap].
Qed.

Lemma insertionSort_perm (A : Type) (x : list A) (less : A -> A -> bool) :
  Permutation (insertionSort x less) x.
Proof.
  unfold insertionSort.
  transitivity (fold_left (fun revPrefix e => insertLess less e revPrefix) x []);
    [symmetry; apply Permutation_rev|].
  rewrite <- (app_nil_r x) at 2. generalize (@nil A) as acc.
  induction x as [|e x IH]; intros acc; simpl; [reflexivity|].
  transitivity (x ++ insertLess less e acc)%list; [apply IH|].
  transitivity (x ++ e :: acc)%list;
    [apply Permutation_app_head, insertLess_perm|].
  symmetry. apply Permutation_middle.
Qed.

Lemma nameLess_asym (a b : nodeWithName) : nameLess a b = true -> nameLe a b.
Proof.
  unfold nameLe, nameLess, String.ltb.
  rewrite (String.compare_antisym (sortedName a) (sortedName b)).
  now destruct (sortedName b ?= sortedName a)%string.
Qed.

Lemma insertLess_descending (e : nodeWithName) (revPrefix : list nodeWithName) :
  StronglySorted (fun a b => nameLe b a) revPrefix ->
  StronglySorted (fun a b => nameLe b a) (insertLess nameLess e revPrefix).
Proof.
  induction revPrefix as [|p l IH]; intros Hs; simpl.
  - repeat constructor.
  - inversion Hs as [|? ? Hl Hp]; subst.
    destruct (nameLess e p) eqn:Hep.
    + constructor; [now apply IH|].
      apply Forall_forall. intros b Hb.
      apply (Permutation_in _ (insertLess_perm nameLess e l)) in Hb.
      destruct Hb as [<-|Hb]; [now apply nameLess_asym|].
      rewrite Forall_forall in Hp. now apply Hp.
    + constructor; [assumption|].
      constructor; [exact Hep|].
      eapply Forall_impl; [|exact Hp].
      intros b Hb.
      exact (@notAfter_trans (sortedName b) (sortedName p) (sortedName e) Hb Hep).
Qed.

Lemma StronglySorted_snoc (A : Type) (R : A -> A -> Prop) (l : list A) (a : A) :
  StronglySorted R l -> Forall (fun x => R x a) l ->
  StronglySorted R (l ++ [a])%list.
Proof.
  induction 1 as [|b l Hl IH Hb]; intros Ha; simpl.
  - repeat constructor.
  - inversion Ha; subst. constructor; [now apply IH|].
    apply Forall_app. split; [assumption|now constructor].
Qed.

Lemma StronglySorted_rev (A : Type) (R : A -> A -> Prop) (l : list A) :
  StronglySorted (fun a b => R b a) l -> StronglySorted R (rev l).
Proof.
  induction 1 as [|a l Hl IH Ha]; simpl; [constructor|].
  apply StronglySorted_snoc; [assumption|].
  apply Forall_rev. exact Ha.
Qed.

Lemma ascending_SliceIsSorted (x : list nodeWithName) :
  StronglySorted nameLe x -> SliceIsSorted x nameLess = true.
Proof.
  induction 1 as [|a x Hx IH Ha]; [reflexivity|].
  destruct x as [|b x']; [reflexivity|].
  change (negb (nameLess b a) && SliceIsSorted (b :: x') nameLess = true).
  rewrite IH. inversion Ha as [|? ? Hab _]; subst.
  unfold nameLe in Hab. now rewrite Hab.
Qed.

Lemma insertionSort_sorted (x : list nodeWithName) :
  SliceIsSorted (insertionSort x nameLess) nameLess = true.
Proof.
  apply ascending_SliceIsSorted. unfold insertionSort.
  apply StronglySorted_rev.
  assert (H : forall acc, StronglySorted (fun a b => nameLe b a) acc ->
            StronglySorted (fun a b => nameLe b a)
              (fold_left (fun revPrefix e => insertLess nameLess e revPrefix) x acc)).
  { induction x as [|e x IH]; intros acc Hacc; simpl; [assumption|].
    apply IH. now apply insertLess_descending. }
  apply H. constructor.
Qed.

Lemma quoteByte_plain (c : ascii) :
  plainByte c = true -> quoteByte c = String c EmptyString.
Proof.
  unfold plainByte, quoteByte. intros H.
  apply andb_prop in H as [H Hb]. apply andb_prop in H as [H Hq].
  apply negb_true_iff in Hb, Hq. now rewrite Hq, Hb, H.
Qed.

Lemma quoteASCII_plain (s : string) :
  plainKey s = true ->
  quoteASCII s = String dquote (s ++ String dquote EmptyString).
Proof.
  intros Hplain. unfold quoteASCII. f_equal. f_equal.
  induction s as [|c s IH]; [reflexivity|]. simpl in *.
  apply andb_prop in Hplain as [Hc Hs].
  now rewrite (quoteByte_plain _ Hc), (IH Hs).
Qed.

(** ** The claims on the sample trees *)

Lemma C1_person_declaration_witness :
  Permutation [nameField; ageField] [nameField; ageField] /\
  astMakeDecls insertionSort quoteASCII [person] sampleOpts = Ok [personDecl].
Proof.
  split; [apply Permutation_refl|].
  apply (@C1_person_declaration insertionSort quoteASCII
           (@insertionSort_perm nodeWithName) insertionSort_sorted quoteASCII_plain
           false true false false false EmptyString EmptyString EmptyString
           EmptyString [nameField; ageField] [] []).
  apply Permutation_refl.
Defined.

Lemma C2_numeric_pointer_witness :
  (t ageField = nodeIntType /\ root ageField = false /\ arrayLevel ageField = 0) /\
  astTypeFromNode insertionSort quoteASCII ageField sampleOpts =
  Ok (ast.StarExpr (goIdent "int64")).
Proof.
  split; [repeat split|].
  exact (@C2_numeric_pointer_iff_nullable_or_not_required
           insertionSort quoteASCII ageField sampleOpts "int64"
           (or_intror (or_introl (conj eq_refl eq_refl))) eq_refl eq_refl).
Defined.

(** C2 as stated fails: an integer node that is neither nullable nor
    required, outside any array and not at the root, is [*int64]. *)
Lemma C2_not_required_integer_is_pointer :
  t ageField = nodeIntType /\ root ageField = false /\ arrayLevel ageField = 0 /\
  nullable ageField = false /\ required ageField = false /\
  astTypeFromNode insertionSort quoteASCII ageField plainOpts =
  Ok (ast.StarExpr (goIdent "int64")).
Proof. repeat split. Qed.

Lemma C3_string_pointer_witness :
  (t nameField = nodeStringType /\ root nameField = false /\
   arrayLevel nameField = 0 /\ stringPointersWhenKeyMissing sampleOpts = true /\
   nullable nameField = false /\ required nameField = true) /\
  astTypeFromNode insertionSort quoteASCII nameField sampleOpts =
  Ok (goIdent "string").
Proof.
  split; [repeat split|].
  exact (proj1 (@C3_string_pointer_boundary insertionSort quoteASCII
                  nameField sampleOpts eq_refl eq_refl eq_refl eq_refl)
               eq_refl eq_refl).
Defined.

Lemma C4_array_pointer_witness :
  (typeSwitch insertionSort quoteASCII (astTypeFromNode insertionSort quoteASCII)
     stringsWithNulls sampleOpts = Ok (goIdent "string", true, true) /\
   arrayLevel stringsWithNulls = 1 /\ arrayWithNulls stringsWithNulls = true) /\
  astTypeFromNode insertionSort quoteASCII stringsWithNulls sampleOpts =
  Ok (ast.ArrayType (ast.StarExpr (goIdent "string"))).
Proof.
  split; [repeat split|].
  exact (proj1 (proj2 (@C4_array_pointer_boundary insertionSort quoteASCII
                         (@insertionSort_perm nodeWithName)
                         stringsWithNulls sampleOpts (goIdent "string") true eq_refl))
               eq_refl eq_refl).
Defined.



Lemma C6_timestamp_witness :
  (t rootTime = nodeTimeType /\ timeAsStr sampleOpts = false /\ root rootTime = true) /\
  astTypeFromTimeNode rootTime sampleOpts = goIdent "= time.Time".
Proof.
  split; [repeat split|].
  exact (proj1 (@C6_timestamp_root_vs_nested insertionSort quoteASCII
                  rootTime sampleOpts eq_refl)
               eq_refl eq_refl).
Defined.




(** The sample printer on the declaration of [person]. *)
Lemma astPrintDecls_person :
  astPrintDecls printOneLine trimSpaceASCII [personDecl] = personText.
Proof. reflexivity. Qed.



Lemma C9_total_or_panic_witness :
  (forallb allRecognized [person] = true /\
   In withStray [withStray] /\ reached withStray strayField /\
   t strayField = nodeOtherType "stray") /\
  (exists decls,
      astMakeDecls insertionSort quoteASCII [person] sampleOpts = Ok decls /\
      List.length decls = List.length [person]) /\
  (exists msg,
      astMakeDecls insertionSort quoteASCII [withStray] sampleOpts = Panic msg).
Proof.
  assert (Hreach : reached withStray strayField).
  { apply reached_field with (child := strayField);
      [reflexivity|right; now left|apply reached_self]. }
  split; [repeat split; [now left|exact Hreach]|].
  split.
  - exact (proj1 (@C9_total_or_panic insertionSort quoteASCII
                    (@insertionSort_perm nodeWithName) insertionSort_sorted
                    [person] sampleOpts)
                 eq_refl).
  - exact (proj2 (proj2 (@C9_total_or_panic insertionSort quoteASCII
                           (@insertionSort_perm nodeWithName) insertionSort_sorted
                           [withStray] sampleOpts))
                 withStray strayField "stray" (or_introl eq_refl) Hreach eq_refl).
Defined.

Lemma C10_optional_timestamp_witness :
  (t timeField = nodeTimeType /\ root timeField = false /\
   arrayLevel timeField = 0 /\ nullable timeField = false /\
   required timeField = false /\ timeAsStr plainOpts = false) /\
  astTypeFromNode insertionSort quoteASCII timeField plainOpts =
  Ok (ast.StarExpr (goIdent "time.Time")).
Proof.
  split; [repeat split|].
  exact (proj2 (@C10_optional_timestamp_is_pointer insertionSort quoteASCII
                  timeField plainOpts eq_refl)
               eq_refl eq_refl eq_refl eq_refl eq_refl).
Defined.

(** ** The further properties on the sample trees *)

Lemma synthesized_types_are_wellShaped_witness :
  astTypeFromNode insertionSort quoteASCII person sampleOpts = Ok personStruct /\
  wellShaped personStruct = true.
Proof.
  split; [reflexivity|].
  exact (@synthesized_types_are_wellShaped insertionSort quoteASCII
           (@insertionSort_perm nodeWithName) insertionSort_sorted
           person sampleOpts personStruct eq_refl).
Defined.

Lemma array_depth_is_arrayLevel_witness :
  astTypeFromNode insertionSort quoteASCII anyField sampleOpts =
  Ok (ast.ArrayType (ast.ArrayType newEmptyInterfaceExpr)) /\
  arrayDepth (ast.ArrayType (ast.ArrayType newEmptyInterfaceExpr)) =
  arrayLevel anyField.
Proof.
  split; [reflexivity|].
  exact (@array_depth_is_arrayLevel insertionSort quoteASCII
           (@insertionSort_perm nodeWithName) anyField sampleOpts
           (ast.ArrayType (ast.ArrayType newEmptyInterfaceExpr)) eq_refl).
Defined.

Lemma root_is_never_a_pointer_witness :
  (root person = true /\ arrayLevel person = 0 /\
   astTypeFromNode insertionSort quoteASCII person sampleOpts = Ok personStruct) /\
  (exists notRequiredAsPointer allowPointer,
      typeSwitch insertionSort quoteASCII
        (astTypeFromNode insertionSort quoteASCII) person sampleOpts =
      Ok (personStruct, notRequiredAsPointer, allowPointer)) /\
  (forall x, personStruct <> ast.StarExpr x) /\ arrayDepth personStruct = 0.
Proof.
  split; [repeat split|].
  exact (@root_is_never_a_pointer insertionSort quoteASCII
           (@insertionSort_perm nodeWithName) person sampleOpts personStruct
           eq_refl eq_refl eq_refl).
Defined.

Lemma interface_ignores_flags_witness :
  t anyField = nodeInterfaceType /\
  astTypeFromNode insertionSort quoteASCII anyField sampleOpts =
  Ok (ast.ArrayType (ast.ArrayType newEmptyInterfaceExpr)).
Proof.
  split; [reflexivity|].
  exact (@interface_ignores_flags insertionSort quoteASCII anyField sampleOpts
           (or_introl eq_refl)).
Defined.

Lemma extracted_name_and_pointer_witness :
  (t extField = nodeExtractedType /\ root extField = false /\
   arrayLevel extField = 0) /\
  astTypeFromNode insertionSort quoteASCII extField sampleOpts =
  Ok (ast.StarExpr (goIdent "pkg.Type")).
Proof.
  split; [repeat split|].
  exact (@extracted_name_and_pointer insertionSort quoteASCII extField sampleOpts
           eq_refl eq_refl eq_refl).
Defined.

Lemma nested_object_pointer_witness :
  (t ownerField = nodeObjectType /\ root ownerField = false /\
   arrayLevel ownerField = 0) /\
  astTypeFromNode insertionSort quoteASCII ownerField sampleOpts =
  Ok (ast.StarExpr personStruct).
Proof.
  split; [repeat split|].
  exact (@nested_object_pointer insertionSort quoteASCII
           (@insertionSort_perm nodeWithName) ownerField sampleOpts
           eq_refl eq_refl eq_refl).
Defined.

Lemma time_as_string_is_string_witness :
  timeAsStr stringTimeOpts = true /\
  astTypeFromNode insertionSort quoteASCII timeField stringTimeOpts =
  astTypeFromNode insertionSort quoteASCII
    (leafNode nodeStringType "at" false false) stringTimeOpts.
Proof.
  split; [reflexivity|].
  exact (@time_as_string_is_string insertionSort quoteASCII
           false false false false "at" "at" EmptyString 0 [] stringTimeOpts
           eq_refl).
Defined.

Lemma string_pointer_flag_off_witness :
  (t nickField = nodeStringType /\ root nickField = false /\
   arrayLevel nickField = 0 /\ stringPointersWhenKeyMissing plainOpts = false) /\
  astTypeFromNode insertionSort quoteASCII nickField plainOpts =
  Ok (goIdent "string").
Proof.
  split; [repeat split|].
  exact (@string_pointer_flag_off insertionSort quoteASCII nickField plainOpts
           eq_refl eq_refl eq_refl eq_refl).
Defined.

Lemma options_matter_witness :
  (anyNode isStringKind ageField = false /\ anyNode isTimeKind ageField = false) /\
  astTypeFromNode insertionSort quoteASCII ageField sampleOpts =
  astTypeFromNode insertionSort quoteASCII ageField otherOpts.
Proof.
  split; [split; reflexivity|].
  apply (@options_matter_for_strings_and_times_only insertionSort quoteASCII
           (@insertionSort_perm nodeWithName) ageField sampleOpts otherOpts);
    intros H; discriminate H.
Defined.

Lemma panic_names_an_unknown_kind_witness :
  astMakeDecls insertionSort quoteASCII [person; withStray] sampleOpts =
  Panic "unknown type: stray" /\
  exists r m v,
    In r [person; withStray] /\ reached r m /\ t m = nodeOtherType v /\
    "unknown type: stray" = "unknown type: " ++ v.
Proof.
  split; [reflexivity|].
  exact (@panic_names_an_unknown_kind insertionSort quoteASCII
           (@insertionSort_perm nodeWithName) insertionSort_sorted
           [person; withStray] sampleOpts "unknown type: stray" eq_refl).
Defined.

Lemma astMakeDecls_one_declaration_per_root_witness :
  astMakeDecls insertionSort quoteASCII [person] sampleOpts = Ok [personDecl] /\
  Forall2 (fun r d =>
             exists ty,
               astTypeFromNode insertionSort quoteASCII r sampleOpts = Ok ty /\
               d = {| ast.Tok := token.TYPE;
                      ast.Specs := [ {| ast.SpecName := ast.NewIdent (name r);
                                        ast.SpecType := ty |} ] |})
          [person] [personDecl].
Proof.
  split; [reflexivity|].
  exact (proj1 (@astMakeDecls_one_declaration_per_root insertionSort quoteASCII
                  [person] sampleOpts [personDecl]) eq_refl).
Defined.

Lemma astMakeDecls_first_panic_witness :
  (Forall (fun y => exists ty,
                      astTypeFromNode insertionSort quoteASCII y sampleOpts = Ok ty)
          [person] /\
   astTypeFromNode insertionSort quoteASCII withStray sampleOpts =
   Panic "unknown type: stray") /\
  astMakeDecls insertionSort quoteASCII ([person] ++ withStray :: [person])%list
    sampleOpts = Panic "unknown type: stray".
Proof.
  assert (Hbefore : Forall (fun y => exists ty,
                      astTypeFromNode insertionSort quoteASCII y sampleOpts = Ok ty)
                      [person]).
  { constructor; [exists personStruct; reflexivity|constructor]. }
  split; [split; [exact Hbefore|reflexivity]|].
  exact (@astMakeDecls_first_panic insertionSort quoteASCII
           [person] [person] withStray sampleOpts "unknown type: stray"
           Hbefore eq_refl).
Defined.

Lemma astPrintDecls_strips_header_witness :
  printOneLine printerMode tabWidth
    {| ast.FileName := ast.NewIdent "main"; ast.Decls := [personDecl] |} =
  "package main" ++ (newline ++ "type Person " ++ printExpr personStruct ++ newline) /\
  astPrintDecls printOneLine trimSpaceASCII [personDecl] =
  trimSpaceASCII (newline ++ "type Person " ++ printExpr personStruct ++ newline).
Proof.
  split; [reflexivity|].
  exact (proj1 (@astPrintDecls_strips_header printOneLine trimSpaceASCII
                  [personDecl]
                  (newline ++ "type Person " ++ printExpr personStruct ++ newline))
               eq_refl).
Defined.

Lemma object_without_children_witness :
  (t emptyObject = nodeObjectType /\ children emptyObject = []) /\
  astTypeFromNode insertionSort quoteASCII emptyObject sampleOpts =
  Ok (ast.StructType (ast.Build_FieldList 0 [] 0)).
Proof.
  split; [split; reflexivity|].
  exact (@object_without_children_is_empty_struct insertionSort quoteASCII
           (@insertionSort_perm nodeWithName) emptyObject sampleOpts
           eq_refl eq_refl).
Defined.

Lemma unread_children_do_not_matter_witness :
  readsChildren nodeStringType = false /\
  astTypeFromNode insertionSort quoteASCII
    (Build_node false false true "name" "name" nodeStringType EmptyString 0 false
       [withStray]) sampleOpts =
  astTypeFromNode insertionSort quoteASCII nameField sampleOpts.
Proof.
  split; [reflexivity|].
  exact (@unread_children_do_not_matter insertionSort quoteASCII
           (@insertionSort_perm nodeWithName)
           false false true false "name" "name" EmptyString nodeStringType 0
           [withStray] [] sampleOpts (or_introl eq_refl)).
Defined.

Lemma struct_fields_of_distinct_children_witness :
  (distinct (map name (children person)) = true /\
   astStructTypeFromNode insertionSort quoteASCII
     (astTypeFromNode insertionSort quoteASCII) person sampleOpts =
   Ok personStruct) /\
  exists fields,
    personStruct = ast.StructType (ast.Build_FieldList 0 fields 0) /\
    List.length fields = List.length (children person) /\
    strictlyAscending (map ast.Name (flat_map ast.Names fields)) /\
    forall child, In child (children person) ->
      exists ty,
        astTypeFromNode insertionSort quoteASCII child sampleOpts = Ok ty /\
        In (ast.Build_Field [ast.NewIdent (name child)] ty
              (astJSONTag quoteASCII (key child) (negb (required child))))
           fields.
Proof.
  split; [split; reflexivity|].
  exact (@struct_fields_of_distinct_children insertionSort quoteASCII
           (@insertionSort_perm nodeWithName) insertionSort_sorted
           person sampleOpts personStruct eq_refl eq_refl).
Defined.

Lemma tag_identifies_key_and_marker_witness :
  (plainKey "name" = true /\ commaFree "name" = true /\
   astJSONTag quoteASCII "name" false = astJSONTag quoteASCII "name" false) /\
  ("name" = "name" /\ false = false).
Proof.
  split; [repeat split|].
  exact (proj1 (@tag_identifies_key_and_marker quoteASCII quoteASCII_plain
                  "name" "name" false false)
               eq_refl eq_refl eq_refl eq_refl eq_refl).
Defined.

Lemma own_key_and_name_do_not_matter_witness :
  nodeIntType <> nodeExtractedType /\
  astTypeFromNode insertionSort quoteASCII ageField sampleOpts =
  astTypeFromNode insertionSort quoteASCII
    (Build_node false false false "years" "Years" nodeIntType "x.Y" 0 false [])
    sampleOpts.
Proof.
  assert (Hne : nodeIntType <> nodeExtractedType) by discriminate.
  split; [exact Hne|].
  exact (@own_key_and_name_do_not_matter insertionSort quoteASCII
           false false false false "age" "years" "age" "Years" EmptyString "x.Y"
           nodeIntType 0 [] sampleOpts (or_introl Hne)).
Defined.
